(** * Geocoding module of mcp-server-weather-forecast

    A shallow embedding of [src/modules/geo-coding.ts]: the Nominatim lookup
    client [geocodeUKCity], the rate limiter [NominatimGeocoder] with its
    module-level singleton, and the batch driver [batchGeocodeUKCities],
    together with the fragment of the JavaScript semantics that the three
    functions exercise on untyped upstream JSON. *)

From Stdlib Require Import ZArith NArith Ascii String List Bool Lia.
From stdpp Require Import base option list gmap strings pretty.

Set Warnings "-register-all,-clear-no-such-hyp".
Local Open Scope Z_scope.

(** ** JavaScript values *)

Module JS.

(** A JavaScript number.  [Finite neg m e] stands for the decimal value
    [(-1)^neg * m * 10^e]; the rounding of that value to an IEEE-754 double
    is left out of the model, so a number is carried by the decimal text it
    was read from: a value beyond the range of a double stays finite where
    the engine gives [Infinity], and one below it stays non-zero where the
    engine gives 0.  Whether a number is [NaN] does not depend on the
    rounding.  Both zeros are kept apart by the sign. *)
Inductive number : Type :=
| NaN
| Infinity (negative : bool)
| Finite (negative : bool) (mantissa : N) (exponent : Z).

(** What [response.json()] can resolve to, plus [undefined], which the
    transformation of a candidate produces for fields the upstream omits.
    A string is a sequence of code units below 256.  [VObject] lists the own
    properties of a plain object; a key listed twice is read at its first
    occurrence. *)
Inductive value : Type :=
| VUndefined
| VNull
| VBoolean (b : bool)
| VNumber (n : number)
| VString (s : string)
| VArray (elements : list value)
| VObject (properties : list (string * value)).

(** The language raises a [TypeError] in three ways in this module. *)
Inductive type_error : Type :=
| ReadOfNullish (base : value) (key : string)
| NotAFunction (key : string)
| NoPrimitiveValue.

(** A thrown (or rejected) value.  [TypeError] and [HostError] are instances
    of [Error]; the text of a [TypeError] is chosen by the engine. *)
Inductive thrown : Type :=
| TypeError (why : type_error)
| HostError (message : string)
| HostValue.

Inductive completion (A : Type) : Type :=
| Normal (a : A)
| Throw (e : thrown).
Arguments Normal {A} a.
Arguments Throw {A} e.

Definition and_then {A B : Type} (c : completion A) (k : A -> completion B)
  : completion B :=
  match c with
  | Normal a => k a
  | Throw e => Throw e
  end.

Notation "'do' x <- c ; k" := (and_then c (fun x => k))
  (at level 10, x name, c at level 100, k at level 200).

(** ToBoolean. *)
Definition number_is_zero (n : number) : bool :=
  match n with
  | Finite _ m _ => N.eqb m 0
  | _ => false
  end.

Definition ToBoolean (v : value) : bool :=
  match v with
  | VUndefined | VNull => false
  | VBoolean b => b
  | VNumber NaN => false
  | VNumber n => negb (number_is_zero n)
  | VString s => negb (String.eqb s "")
  | VArray _ | VObject _ => true
  end.

(** [v === 0]. *)
Definition strictly_equals_zero (v : value) : bool :=
  match v with
  | VNumber n => number_is_zero n
  | _ => false
  end.

Fixpoint own_property (key : string) (properties : list (string * value))
  : option value :=
  match properties with
  | [] => None
  | (k, v) :: rest => if String.eqb k key then Some v else own_property key rest
  end.

(** [v.key] for a key that no built-in prototype defines ([name],
    [display_name], [lat], [lon], [address], [country], [county], [state]):
    reading from [undefined] or [null] throws, a plain object answers with
    its own property, every other value with [undefined]. *)
Definition Get (v : value) (key : string) : completion value :=
  match v with
  | VUndefined | VNull => Throw (TypeError (ReadOfNullish v key))
  | VObject properties => Normal (default VUndefined (own_property key properties))
  | _ => Normal VUndefined
  end.

(** [v?.key] for such a key. *)
Definition OptionalGet (v : value) (key : string) : completion value :=
  match v with
  | VUndefined | VNull => Normal VUndefined
  | _ => Get v key
  end.

Definition number_of_nat (n : nat) : number := Finite false (N.of_nat n) 0.

(** [v.length]: arrays and strings have one of their own, a plain object
    only if it lists the key. *)
Definition Get_length (v : value) : completion value :=
  match v with
  | VUndefined | VNull => Throw (TypeError (ReadOfNullish v "length"))
  | VString s => Normal (VNumber (number_of_nat (String.length s)))
  | VArray elements => Normal (VNumber (number_of_nat (List.length elements)))
  | VObject properties => Normal (default VUndefined (own_property "length" properties))
  | _ => Normal VUndefined
  end.

(** ** Strings *)

Definition code (c : ascii) : N := N_of_ascii c.

(** WhiteSpace and LineTerminator code units below 256. *)
Definition is_white_space (c : ascii) : bool :=
  let n := code c in
  (N.leb 9 n && N.leb n 13) || N.eqb n 32 || N.eqb n 160.

Fixpoint trim_start (s : string) : string :=
  match s with
  | String c rest => if is_white_space c then trim_start rest else s
  | EmptyString => EmptyString
  end.

Definition trim_end (s : string) : string :=
  String.rev (trim_start (String.rev s)).

(** [String.prototype.trim]. *)
Definition trim (s : string) : string := trim_end (trim_start s).

(** [s.split(sep)] for a one-unit separator: never the empty list. *)
Fixpoint split (sep : ascii) (s : string) : list string :=
  match s with
  | EmptyString => [EmptyString]
  | String c rest =>
      if Ascii.eqb c sep then EmptyString :: split sep rest
      else match split sep rest with
           | piece :: pieces => String c piece :: pieces
           | [] => [String c EmptyString]
           end
  end.

Definition is_digit (c : ascii) : bool := N.leb 48 (code c) && N.leb (code c) 57.

Definition is_alpha (c : ascii) : bool :=
  let n := code c in
  (N.leb 65 n && N.leb n 90) || (N.leb 97 n && N.leb n 122).

(** The characters [encodeURIComponent] leaves alone: letters, digits and
    [- _ . ! ~ * ' ( )]. *)
Definition is_uri_unreserved (c : ascii) : bool :=
  is_alpha c || is_digit c ||
  existsb (N.eqb (code c)) [45; 95; 46; 33; 126; 42; 39; 40; 41]%N.

Definition hex_digit (n : N) : ascii :=
  ascii_of_N (if N.ltb n 10 then 48 + n else 55 + n).

Definition percent_byte (b : N) (rest : string) : string :=
  String "%" (String (hex_digit (b / 16)) (String (hex_digit (b mod 16)) rest)).

(** [encodeURIComponent]: every other code unit is written as the
    percent-escaped bytes of its UTF-8 encoding (one byte below 128, two
    from 128 to 255).  A string of code units below 256 holds no surrogate,
    so the [URIError] that a lone surrogate raises cannot arise here; names
    with code units from 256 on are outside the model. *)
Fixpoint encodeURIComponent (s : string) : string :=
  match s with
  | EmptyString => EmptyString
  | String c rest =>
      let n := code c in
      if is_uri_unreserved c then String c (encodeURIComponent rest)
      else if N.ltb n 128 then percent_byte n (encodeURIComponent rest)
      else percent_byte (192 + n / 64)
             (percent_byte (128 + n mod 64) (encodeURIComponent rest))
  end.

(** ** Numbers and strings *)

Fixpoint zeros (n : nat) : string :=
  match n with
  | O => EmptyString
  | S n' => String "0" (zeros n')
  end.

Fixpoint first_units (n : nat) (s : string) : string :=
  match n, s with
  | S n', String c rest => String c (first_units n' rest)
  | _, _ => EmptyString
  end.

Fixpoint after_units (n : nat) (s : string) : string :=
  match n, s with
  | S n', String _ rest => after_units n' rest
  | _, _ => s
  end.

(** The digits of [s] without the zeros that end it, read on the reversed
    text, and how many were removed. *)
Fixpoint strip_zeros (reversed : string) (removed : nat) : string * nat :=
  match reversed with
  | String c rest =>
      if Ascii.eqb c "0" then strip_zeros rest (S removed) else (reversed, removed)
  | EmptyString => (EmptyString, removed)
  end.

(** Number::toString in radix 10 on a positive mantissa: with [k] digits
    and the decimal point [n] places after the first digit position. *)
Definition positive_to_string (m : N) (e : Z) : string :=
  let '(reversed, removed) := strip_zeros (String.rev (pretty m)) 0 in
  let digits := String.rev reversed in
  let k := Z.of_nat (String.length digits) in
  let n := k + e + Z.of_nat removed in
  if (k <=? n) && (n <=? 21) then digits +:+ zeros (Z.to_nat (n - k))
  else if (0 <? n) && (n <=? 21) then
    first_units (Z.to_nat n) digits +:+ "." +:+ after_units (Z.to_nat n) digits
  else if (-6 <? n) && (n <=? 0) then "0." +:+ zeros (Z.to_nat (- n)) +:+ digits
  else
    let sign := if n - 1 <? 0 then "-" else "+" in
    let power := "e" +:+ sign +:+ pretty (Z.abs_N (n - 1)) in
    if k =? 1 then digits +:+ power
    else first_units 1 digits +:+ "." +:+ after_units 1 digits +:+ power.

Definition number_to_string (x : number) : string :=
  match x with
  | NaN => "NaN"
  | Infinity negative => if negative then "-Infinity" else "Infinity"
  | Finite negative m e =>
      if N.eqb m 0 then "0"
      else (if negative then "-" else "") +:+ positive_to_string m e
  end.

(** ToString.  An array is joined with commas, [undefined] and [null]
    elements giving the empty text.  A plain object built by [JSON.parse]
    has no callable property of its own: one that lists [toString] hides
    [Object.prototype.toString] and has no primitive value, any other
    prints as [[object Object]]. *)
Fixpoint ToString (v : value) : completion string :=
  match v with
  | VUndefined => Normal "undefined"
  | VNull => Normal "null"
  | VBoolean b => Normal (if b then "true" else "false")
  | VNumber n => Normal (number_to_string n)
  | VString s => Normal s
  | VArray elements =>
      (fix join (l : list value) : completion string :=
         match l with
         | [] => Normal ""
         | x :: rest =>
             do s <- match x with
                     | VUndefined | VNull => Normal ""
                     | _ => ToString x
                     end;
             match rest with
             | [] => Normal s
             | _ :: _ => do r <- join rest; Normal (s +:+ "," +:+ r)
             end
         end) elements
  | VObject properties =>
      match own_property "toString" properties with
      | Some _ => Throw (TypeError NoPrimitiveValue)
      | None => Normal "[object Object]"
      end
  end.

(** ** parseFloat *)

(** DecimalDigits, read greedily: the digits' value on top of [acc], how
    many were read, and the rest of the text. *)
Fixpoint read_digits (s : string) (acc : N) (count : nat) : N * nat * string :=
  match s with
  | String c rest =>
      if is_digit c then read_digits rest (10 * acc + (code c - 48))%N (S count)
      else (acc, count, s)
  | EmptyString => (acc, count, s)
  end.

(** ExponentPart, optional: it counts only with at least one digit. *)
Definition read_exponent (s : string) : Z :=
  match s with
  | String c rest =>
      if Ascii.eqb c "e" || Ascii.eqb c "E" then
        match rest with
        | String sign after =>
            if Ascii.eqb sign "+" then Z.of_N (fst (fst (read_digits after 0%N O)))
            else if Ascii.eqb sign "-" then
              - Z.of_N (fst (fst (read_digits after 0%N O)))
            else Z.of_N (fst (fst (read_digits rest 0%N O)))
        | EmptyString => 0
        end
      else 0
  | EmptyString => 0
  end.

(** What follows the whole part: a point opens the fraction. *)
Definition after_point (s : string) : option string :=
  match s with
  | String c rest => if Ascii.eqb c "." then Some rest else None
  | EmptyString => None
  end.

(** The longest prefix that is a StrUnsignedDecimalLiteral, as a number. *)
Definition read_unsigned (negative : bool) (s : string) : number :=
  if String.prefix "Infinity" s then Infinity negative
  else
    let '(whole, whole_count, after_whole) := read_digits s 0%N O in
    match after_point after_whole with
    | Some fraction =>
        let '(m, fraction_count, after_fraction) :=
          read_digits fraction whole O in
        if Nat.eqb whole_count 0 && Nat.eqb fraction_count 0 then NaN
        else Finite negative m (read_exponent after_fraction - Z.of_nat fraction_count)
    | None =>
        if Nat.eqb whole_count 0 then NaN
        else Finite negative whole (read_exponent after_whole)
    end.

(** An optional sign in front of [s], and what follows it. *)
Definition read_sign (s : string) : bool * string :=
  match s with
  | String c rest =>
      if Ascii.eqb c "-" then (true, rest)
      else if Ascii.eqb c "+" then (false, rest)
      else (false, s)
  | EmptyString => (false, s)
  end.

Definition parseFloat_of_string (s : string) : number :=
  let '(negative, rest) := read_sign (trim_start s) in
  read_unsigned negative rest.

(** [parseFloat(v)]: the argument is first converted with ToString. *)
Definition parseFloat (v : value) : completion number :=
  do s <- ToString v; Normal (parseFloat_of_string s).

(** ** Method calls *)

(** [receiver.split(sep)]: only a string has a callable [split]; a value
    decoded from JSON holds no function, whatever keys it lists. *)
Definition call_split (receiver : value) (sep : ascii) : completion (list string) :=
  match receiver with
  | VUndefined | VNull => Throw (TypeError (ReadOfNullish receiver "split"))
  | VString s => Normal (split sep s)
  | _ => Throw (TypeError (NotAFunction "split"))
  end.

(** [pieces[0]]. *)
Definition first_element (pieces : list string) : value :=
  match pieces with
  | piece :: _ => VString piece
  | [] => VUndefined
  end.

(** The callback applied to the elements in index order; the first throw
    ends the traversal. *)
Fixpoint each {A B : Type} (callback : A -> completion B) (l : list A)
  : completion (list B) :=
  match l with
  | [] => Normal []
  | x :: rest =>
      do y <- callback x;
      do ys <- each callback rest;
      Normal (y :: ys)
  end.

(** [receiver.map(callback)]: only an array has a callable [map]. *)
Definition call_map {B : Type} (receiver : value)
  (callback : value -> completion B) : completion (list B) :=
  match receiver with
  | VUndefined | VNull => Throw (TypeError (ReadOfNullish receiver "map"))
  | VArray elements => each callback elements
  | _ => Throw (TypeError (NotAFunction "map"))
  end.

End JS.

Import JS.

(** ** Data model of the module *)

Record Coordinates : Type := {
  latitude : number;
  longitude : number
}.

(** The interface declares the fields as strings; at run time they hold
    whatever the upstream sent, [undefined] for an omitted optional one. *)
Record GeocodeResult : Type := {
  name : value;
  coordinates : Coordinates;
  displayName : value;
  country : value;
  county : value;
  state : value
}.

Record GeocodeError : Type := {
  error : string;
  details : option string
}.

(** [type GeocodeResponse = GeocodeResult[] | GeocodeError]. *)
Inductive GeocodeResponse : Type :=
| Results (results : list GeocodeResult)
| Failure (failure : GeocodeError).

(** [class NominatimGeocoder]: its one mutable field; [minInterval] is a
    read-only constant of the class. *)
Record NominatimGeocoder : Type := {
  lastRequestTime : Z
}.

Definition minInterval : Z := 1000.

(** [new NominatimGeocoder()]. *)
Definition new_NominatimGeocoder : NominatimGeocoder :=
  {| lastRequestTime := 0 |}.

(** [const results: Record<string, GeocodeResponse> = {}]: the own
    properties of the object, and the object that an assignment to the key
    [__proto__] made its prototype, if any. *)
Record ResultRecord : Type := {
  entries : gmap string GeocodeResponse;
  prototype : option GeocodeResponse
}.

Definition empty_record : ResultRecord :=
  {| entries := ∅; prototype := None |}.

(** [results[key] = response].  [__proto__] is an accessor inherited from
    [Object.prototype]: assigning an object to it (a response is an array
    or an error object) replaces the prototype and creates no property.
    Every other key names no inherited accessor or read-only property, so
    the assignment creates or overwrites an own property. *)
Definition assign (key : string) (response : GeocodeResponse)
  (results : ResultRecord) : ResultRecord :=
  if String.eqb key "__proto__"
  then {| entries := entries results; prototype := Some response |}
  else {| entries := <[key := response]> (entries results);
          prototype := prototype results |}.

(** [Object.keys(results)], as a set. *)
Definition keys (results : ResultRecord) : gset string := dom (entries results).

(** ** The environment *)

(** What [fetch] resolves to: [response.ok] is derived from the status as
    the Fetch standard has it; [body] is what [response.json()] settles to
    after [body_delay] milliseconds. *)
Record Response : Type := {
  status : N;
  statusText : string;
  body : completion value;
  body_delay : N
}.

Definition ok (response : Response) : bool :=
  (N.leb 200 (status response)) && (N.leb (status response) 299).

(** The world outside the module, indexed by the number of events so far:
    how the network answers a request (after how many milliseconds, with
    which settlement), by how much a timer overshoots its delay, and the
    text the engine gives to a [TypeError]. *)
Record Env : Type := {
  network : nat -> string -> list (string * string) -> N * completion Response;
  timer_lag : nat -> N;
  engine_message : type_error -> string
}.

(** Ghost record of what the module did, oldest first. *)
Inductive event : Type :=
| TimerSet (at_ms : Z) (delay : Z)
| LookupCalled (at_ms : Z) (cityName countryCode : string)
| RequestSent (at_ms : Z) (url : string).

(** The clock read by [Date.now()], the module-level singleton
    [nominatimGeocoder] (the class is not exported, so it is the only
    instance and [this] in [geocode]), and the ghost trace. *)
Record World : Type := {
  clock : Z;
  nominatimGeocoder : NominatimGeocoder;
  trace : list event
}.

Definition advance (ms : Z) (e : event) (w : World) : World :=
  {| clock := clock w + ms;
     nominatimGeocoder := nominatimGeocoder w;
     trace := trace w ++ [e] |}.

(** ** Asynchronous code as state passing *)

Definition M (A : Type) : Type := Env -> World -> completion A * World.

Definition ret {A : Type} (a : A) : M A := fun _ w => (Normal a, w).

Definition bind {A B : Type} (m : M A) (k : A -> M B) : M B :=
  fun E w =>
    match m E w with
    | (Normal a, w') => k a E w'
    | (Throw e, w') => (Throw e, w')
    end.

Definition try_catch {A : Type} (body : M A) (handler : thrown -> M A) : M A :=
  fun E w =>
    match body E w with
    | (Normal a, w') => (Normal a, w')
    | (Throw e, w') => handler e E w'
    end.

Definition lift {A : Type} (c : completion A) : M A := fun _ w => (c, w).

Notation "'let*' x := m 'in' k" := (bind m (fun x => k))
  (at level 10, x name, m at level 100, k at level 200).

(** [Date.now()]. *)
Definition Date_now : M Z := fun _ w => (Normal (clock w), w).

Definition TIMEOUT_MAX : Z := 2147483647.

(** Node arms a timer whose delay is below 1 or above [TIMEOUT_MAX] with a
    delay of 1. *)
Definition effective_delay (delay : Z) : Z :=
  if (1 <=? delay) && (delay <=? TIMEOUT_MAX) then delay else 1.

(** [await new Promise(resolve => setTimeout(resolve, delay))]: the caller
    resumes once the timer has fired, never before its delay has passed. *)
Definition sleep (delay : Z) : M unit :=
  fun E w =>
    let lag := Z.of_N (timer_lag E (length (trace w))) in
    (Normal tt, advance (effective_delay delay + lag) (TimerSet (clock w) delay) w).

(** [await fetch(url, { headers })]. *)
Definition fetch (url : string) (headers : list (string * string)) : M Response :=
  fun E w =>
    let '(delay, settled) := network E (length (trace w)) url headers in
    (settled, advance (Z.of_N delay) (RequestSent (clock w) url) w).

(** [await response.json()]. *)
Definition json (response : Response) : M value :=
  fun _ w =>
    (body response,
     {| clock := clock w + Z.of_N (body_delay response);
        nominatimGeocoder := nominatimGeocoder w;
        trace := trace w |}).

(** [error instanceof Error ? error.message : fallback]. *)
Definition message_or (fallback : string) (error : thrown) : M string :=
  fun E w =>
    (Normal match error with
            | TypeError why => engine_message E why
            | HostError message => message
            | HostValue => fallback
            end, w).

Definition note (e : Z -> event) : M unit :=
  fun _ w => (Normal tt, advance 0 (e (clock w)) w).

(** ** The lookup client *)

Definition quote : string := String (ascii_of_N 34) EmptyString.

(** The callback of [data.map] in [geocodeUKCity]. *)
Definition transform (item : value) : completion GeocodeResult :=
  do short <- Get item "name";
  do name <- (if ToBoolean short then Normal short
              else do display <- Get item "display_name";
                   do pieces <- call_split display ",";
                   Normal (first_element pieces));
  do lat <- Get item "lat";
  do latitude <- parseFloat lat;
  do lon <- Get item "lon";
  do longitude <- parseFloat lon;
  do displayName <- Get item "display_name";
  do address <- Get item "address";
  do country <- OptionalGet address "country";
  do address <- Get item "address";
  do county <- OptionalGet address "county";
  do address <- Get item "address";
  do state <- OptionalGet address "state";
  Normal {| name := name;
            coordinates := {| latitude := latitude; longitude := longitude |};
            displayName := displayName;
            country := if ToBoolean country then country
                       else VString "United Kingdom";
            county := county;
            state := state |}.

Definition request_url (cityName countryCode : string) : string :=
  let encodedCity := encodeURIComponent (trim cityName) in
  "https://nominatim.openstreetmap.org/search?" +:+
  "q=" +:+ encodedCity +:+ "&" +:+
  "countrycodes=" +:+ countryCode +:+ "&" +:+
  "format=json&" +:+
  "addressdetails=1&" +:+
  "limit=5".

Definition request_headers : list (string * string) :=
  [("User-Agent", "UK-City-Geocoder/1.0")].

(** [!data || data.length === 0]; the right operand is evaluated on a
    truthy [data] only. *)
Definition is_empty (data : value) : completion bool :=
  if negb (ToBoolean data) then Normal true
  else do len <- Get_length data; Normal (strictly_equals_zero len).

(** [geocodeUKCity(cityName, countryCode = 'gb')]. *)
Definition geocodeUKCity (cityName : string) (countryCode : option string)
  : M GeocodeResponse :=
  let countryCode := default "gb" countryCode in
  let* _ := note (fun now => LookupCalled now cityName countryCode) in
  try_catch
    (let url := request_url cityName countryCode in
     let* response := fetch url request_headers in
     if negb (ok response) then
       ret (Failure
              {| error := "Geocoding service unavailable";
                 details := Some ("HTTP " +:+ pretty (status response) +:+ ": "
                                  +:+ statusText response) |})
     else
       let* data := json response in
       let* empty := lift (is_empty data) in
       if empty then
         ret (Failure
                {| error := "No results found for " +:+ quote +:+ cityName
                            +:+ quote +:+ " in the UK";
                   details := Some "Try checking the spelling or using a more specific location name" |})
       else
         let* results := lift (call_map data transform) in
         ret (Results results))
    (fun error =>
       let* message := message_or "Unknown error occurred" error in
       ret (Failure {| error := "Failed to geocode location";
                       details := Some message |})).

(** ** The rate limiter *)

Definition set_lastRequestTime (t : Z) : M unit :=
  fun _ w =>
    (Normal tt,
     {| clock := clock w;
        nominatimGeocoder := {| lastRequestTime := t |};
        trace := trace w |}).

Definition get_lastRequestTime : M Z :=
  fun _ w => (Normal (lastRequestTime (nominatimGeocoder w)), w).

(** [NominatimGeocoder.geocode(cityName, countryCode = 'gb')]. *)
Definition geocode (cityName : string) (countryCode : option string)
  : M GeocodeResponse :=
  let countryCode := default "gb" countryCode in
  let* now := Date_now in
  let* last := get_lastRequestTime in
  let timeSinceLastRequest := now - last in
  let* _ := (if timeSinceLastRequest <? minInterval then
               let waitTime := minInterval - timeSinceLastRequest in
               sleep waitTime
             else ret tt) in
  let* stamp := Date_now in
  let* _ := set_lastRequestTime stamp in
  geocodeUKCity cityName (Some countryCode).

(** ** The batch driver *)

(** The loop of [batchGeocodeUKCities], over the two lookups it can call. *)
Fixpoint batch_loop (limited direct : string -> M GeocodeResponse)
  (useRateLimiting : bool) (cityNames : list string) (results : ResultRecord)
  : M ResultRecord :=
  match cityNames with
  | [] => ret results
  | cityName :: rest =>
      let* results' :=
        try_catch
          (if useRateLimiting then
             let* response := limited cityName in
             ret (assign cityName response results)
           else
             let* response := direct cityName in
             ret (assign cityName response results))
          (fun error =>
             let* message := message_or "Unknown error" error in
             ret (assign cityName
                    (Failure {| error := "Failed to geocode " +:+ cityName;
                                details := Some message |})
                    results)) in
      batch_loop limited direct useRateLimiting rest results'
  end.

(** [batchGeocodeUKCities(cityNames, useRateLimiting = true)]. *)
Definition batchGeocodeUKCities (cityNames : list string)
  (useRateLimiting : option bool) : M ResultRecord :=
  batch_loop (fun cityName => geocode cityName None)
             (fun cityName => geocodeUKCity cityName None)
             (default true useRateLimiting) cityNames empty_record.

(** ** Vocabulary of the statements *)

(** What the network answers to the request that the lookup of [cityName]
    sends from world [w]: the call first leaves its own mark on the trace. *)
Definition upstream_answer (E : Env) (w : World) (cityName : string)
  (countryCode : option string) : N * completion Response :=
  network E (S (length (trace w)))
    (request_url cityName (default "gb" countryCode)) request_headers.

(** The value of [item.key], [undefined] where the read would throw. *)
Definition property (item : value) (key : string) : value :=
  match Get item key with
  | Normal v => v
  | Throw _ => VUndefined
  end.

Definition is_string (v : value) : bool :=
  match v with
  | VString _ => true
  | _ => false
  end.

(** The text of [error instanceof Error ? error.message : fallback]. *)
Definition message_text (E : Env) (fallback : string) (e : thrown) : string :=
  match e with
  | TypeError why => engine_message E why
  | HostError message => message
  | HostValue => fallback
  end.

(** The catch-all outcome of the lookup client. *)
Definition lookup_failed (E : Env) (e : thrown) : GeocodeResponse :=
  Failure {| error := "Failed to geocode location";
             details := Some (message_text E "Unknown error occurred" e) |}.

Definition no_results (cityName : string) : GeocodeResponse :=
  Failure
    {| error := "No results found for " +:+ quote +:+ cityName
                +:+ quote +:+ " in the UK";
       details := Some "Try checking the spelling or using a more specific location name" |}.

(** The text of [s] before its first comma, all of [s] if it has none. *)
Fixpoint first_segment (s : string) : string :=
  match s with
  | EmptyString => EmptyString
  | String c rest =>
      if Ascii.eqb c "," then EmptyString else String c (first_segment rest)
  end.

(** [v] converts to a string without throwing. *)
Definition printable (v : value) : bool :=
  match ToString v with
  | Normal _ => true
  | Throw _ => false
  end.

(** A candidate has a usable label: a truthy [name], or a [display_name]
    that is a string. *)
Definition labelled (item : value) : bool :=
  ToBoolean (property item "name") || is_string (property item "display_name").

(** A candidate the transformation accepts: not [null], labelled, and with
    [lat] and [lon] values that convert to strings. *)
Definition usable (item : value) : bool :=
  match item with
  | VUndefined | VNull => false
  | _ => labelled item
         && printable (property item "lat")
         && printable (property item "lon")
  end.

(** The label the specification gives a candidate. *)
Definition label_of (item : value) : value :=
  if ToBoolean (property item "name") then property item "name"
  else match property item "display_name" with
       | VString s => VString (first_segment s)
       | _ => VUndefined
       end.

Definition country_of (item : value) : value :=
  let upstream := property (property item "address") "country" in
  if ToBoolean upstream then upstream else VString "United Kingdom".




(** The lookups recorded on a trace: when, and for which name. *)
Fixpoint lookups (t : list event) : list (Z * string * string) :=
  match t with
  | [] => []
  | LookupCalled at_ms cityName countryCode :: rest =>
      (at_ms, cityName, countryCode) :: lookups rest
  | _ :: rest => lookups rest
  end.

(** The delays of the timers recorded on a trace. *)
Fixpoint timers (t : list event) : list Z :=
  match t with
  | [] => []
  | TimerSet _ delay :: rest => delay :: timers rest
  | _ :: rest => timers rest
  end.

(** The limiter's decisions on entry to [geocode] from world [w]: the time
    since the recorded dispatch, the timer it sets if any, and the clock
    reading at which it hands over to the lookup client. *)
Definition elapsed (w : World) : Z :=
  clock w - lastRequestTime (nominatimGeocoder w).

Definition wait_of (w : World) : list event :=
  if elapsed w <? minInterval
  then [TimerSet (clock w) (minInterval - elapsed w)]
  else [].

Definition dispatch_time (E : Env) (w : World) : Z :=
  if elapsed w <? minInterval
  then clock w + (effective_delay (minInterval - elapsed w)
                  + Z.of_N (timer_lag E (length (trace w))))
  else clock w.

(** Time passing between two calls. *)
Definition idle (ms : N) (w : World) : World :=
  {| clock := clock w + Z.of_N ms;
     nominatimGeocoder := nominatimGeocoder w;
     trace := trace w |}.

(** The entry the batch driver stores for a name whose lookup threw. *)
Definition batch_failed (E : Env) (cityName : string) (e : thrown)
  : GeocodeResponse :=
  Failure {| error := "Failed to geocode " +:+ cityName;
             details := Some (message_text E "Unknown error" e) |}.

(** The response the driver assigns for a name, from how its lookup
    completed. *)
Definition settle (E : Env) (cityName : string)
  (c : completion GeocodeResponse) : GeocodeResponse :=
  match c with
  | Normal response => response
  | Throw e => batch_failed E cityName e
  end.

(** The lookup the loop calls, by the toggle. *)
Definition chosen (limited direct : string -> M GeocodeResponse)
  (useRateLimiting : bool) : string -> M GeocodeResponse :=
  if useRateLimiting then limited else direct.

(** The names with the responses assigned for them, in input order, and the
    world after the last lookup. *)
Fixpoint outcomes (step : string -> M GeocodeResponse) (cityNames : list string)
  (E : Env) (w : World) : list (string * GeocodeResponse) * World :=
  match cityNames with
  | [] => ([], w)
  | cityName :: rest =>
      let '(c, w1) := step cityName E w in
      let '(later, w2) := outcomes step rest E w1 in
      ((cityName, settle E cityName c) :: later, w2)
  end.

Definition assign_all (assignments : list (string * GeocodeResponse))
  (results : ResultRecord) : ResultRecord :=
  fold_left (fun acc o => assign (fst o) (snd o) acc) assignments results.

(** A lookup that always rejects, as a stub for the driver. *)
Definition rejecting (e : thrown) (cityName : string) : M GeocodeResponse :=
  fun _ w => (Throw e, w).

(** ** Sample environments *)

(** The expression whose call fails, as the module writes it: V8 names the
    callee in its message. *)
Definition callee (key : string) : string :=
  if String.eqb key "map" then "data.map"
  else if String.eqb key "split" then "item.display_name.split"
  else key.

(** The wording V8 gives the three errors. *)
Definition v8_message (why : type_error) : string :=
  match why with
  | ReadOfNullish base key =>
      "Cannot read properties of "
      +:+ (match base with VNull => "null" | _ => "undefined" end)
      +:+ " (reading '" +:+ key +:+ "')"
  | NotAFunction key => callee key +:+ " is not a function"
  | NoPrimitiveValue => "Cannot convert object to primitive value"
  end.

(** An upstream that answers every request after 120 ms with the same
    status and body, and timers that fire on time. *)
Definition stub (status : N) (statusText : string) (data : completion value)
  : Env :=
  {| network := fun _ _ _ =>
       (120%N, Normal {| status := status; statusText := statusText;
                         body := data; body_delay := 5 |});
     timer_lag := fun _ => 0%N;
     engine_message := v8_message |}.

(** The module just loaded, at clock reading [now]. *)
Definition boot (now : Z) : World :=
  {| clock := now; nominatimGeocoder := new_NominatimGeocoder; trace := [] |}.

Definition manchester : value :=
  VObject [("name", VString "Manchester");
           ("display_name", VString "Manchester, Greater Manchester, England");
           ("lat", VString "53.4794892");
           ("lon", VString "-2.2451148");
           ("address", VObject [("county", VString "Greater Manchester");
                                ("state", VString "England");
                                ("country", VString "United Kingdom")])].

(** A candidate with no short name and coordinates that are not numbers. *)
Definition unnamed_place : value :=
  VObject [("display_name", VString "Ashby, Leicestershire");
           ("lat", VString "north");
           ("lon", VString "")].

(** ** Vocabulary of the further properties *)

(** The outcome on a status outside 200..299. *)
Definition unavailable (response : Response) : GeocodeResponse :=
  Failure {| error := "Geocoding service unavailable";
             details := Some ("HTTP " +:+ pretty (status response) +:+ ": "
                              +:+ statusText response) |}.

(** What the lookup of [cityName] returns, by how the request settled. *)
Definition classify (E : Env) (cityName : string)
  (settled : completion Response) : GeocodeResponse :=
  match settled with
  | Throw e => lookup_failed E e
  | Normal response =>
      if ok response then
        match body response with
        | Throw e => lookup_failed E e
        | Normal data =>
            match is_empty data with
            | Throw e => lookup_failed E e
            | Normal true => no_results cityName
            | Normal false =>
                match call_map data transform with
                | Throw e => lookup_failed E e
                | Normal results => Results results
                end
            end
        end
      else unavailable response
  end.

Fixpoint string_forall (P : ascii -> bool) (s : string) : bool :=
  match s with
  | EmptyString => true
  | String c rest => P c && string_forall P rest
  end.

(** The characters an encoded name is made of: the unreserved ones and the
    percent sign of an escape (its two hexadecimal digits are unreserved). *)
Definition is_url_safe (c : ascii) : bool :=
  is_uri_unreserved c || Ascii.eqb c "%".

(** The fixed text of the request around the encoded name and the region. *)
Definition url_before_name : string :=
  "https://nominatim.openstreetmap.org/search?q=".

Definition url_after_region : string :=
  "&format=json&addressdetails=1&limit=5".

Definition lookup_time (l : Z * string * string) : Z := fst (fst l).
Definition lookup_name (l : Z * string * string) : string := snd (fst l).
Definition lookup_region (l : Z * string * string) : string := snd l.

(** Each time is at least [minInterval] after the one before it, the first
    one after [previous]. *)
Fixpoint spaced_after (previous : Z) (times : list Z) : Prop :=
  match times with
  | [] => True
  | t :: later => previous + minInterval <= t /\ spaced_after t later
  end.

Definition spaced (times : list Z) : Prop :=
  match times with
  | [] => True
  | t :: later => spaced_after t later
  end.

(** The stamp of the limiter is not ahead of the clock. *)
Definition stamp_in_past (w : World) : Prop :=
  lastRequestTime (nominatimGeocoder w) <= clock w.

(** A network that rejects every request after 30 ms. *)
Definition offline (e : thrown) : Env :=
  {| network := fun _ _ _ => (30%N, Throw e);
     timer_lag := fun _ => 0%N;
     engine_message := v8_message |}.

(** A lookup that answers with one fixed response, as a stub for the
    driver. *)
Definition answering (response : GeocodeResponse) (cityName : string)
  : M GeocodeResponse :=
  fun _ w => (Normal response, w).

(** * Properties *)

(** ** Reading properties and splitting *)

Lemma Get_property (item : value) (key : string) :
  item <> VUndefined -> item <> VNull ->
  Get item key = Normal (property item key).
Proof. intros Hu Hn. unfold property. destruct item; simpl; congruence. Qed.

Lemma OptionalGet_property (v : value) (key : string) :
  OptionalGet v key = Normal (property v key).
Proof. destruct v; reflexivity. Qed.

Lemma split_first_segment (s : string) :
  first_element (split "," s) = VString (first_segment s).
Proof.
  induction s as [|c rest IH]; simpl; [reflexivity|].
  destruct (Ascii.eqb c ","); simpl; [reflexivity|].
  destruct (split "," rest) as [|piece pieces]; simpl in *; [discriminate|].
  congruence.
Qed.

Lemma classic_nullish (item : value) :
  (item = VUndefined \/ item = VNull) \/ (item <> VUndefined /\ item <> VNull).
Proof. destruct item; auto; right; split; discriminate. Qed.

Lemma usable_not_nullish (item : value) :
  usable item = true -> item <> VUndefined /\ item <> VNull.
Proof. destruct item; simpl; intros H; split; congruence. Qed.

(** ** parseFloat yields NaN exactly on texts that begin with no number *)






(** ** The transformation of one candidate *)

(** What the transformation reads, once the candidate is known not to be
    [null]. *)
Lemma transform_reads (item : value) :
  item <> VUndefined -> item <> VNull ->
  transform item =
  (do name <- (if ToBoolean (property item "name")
               then Normal (property item "name")
               else do pieces <- call_split (property item "display_name") ",";
                    Normal (first_element pieces));
   do latitude <- parseFloat (property item "lat");
   do longitude <- parseFloat (property item "lon");
   Normal {| name := name;
             coordinates := {| latitude := latitude; longitude := longitude |};
             displayName := property item "display_name";
             country := country_of item;
             county := property (property item "address") "county";
             state := property (property item "address") "state" |}).
Proof.
  intros Hu Hn. unfold transform.
  rewrite !(Get_property item) by assumption. simpl.
  destruct (ToBoolean (property item "name")); simpl;
    rewrite ?OptionalGet_property; reflexivity.
Qed.

Lemma call_split_label (item : value) :
  labelled item = true -> ToBoolean (property item "name") = false ->
  call_split (property item "display_name") "," =
  Normal (split "," match property item "display_name" with
                    | VString s => s
                    | _ => EmptyString
                    end).
Proof.
  unfold labelled. intros Hl Hn. rewrite Hn in Hl. simpl in Hl.
  destruct (property item "display_name"); simpl in *; congruence.
Qed.

Lemma transform_usable (item : value) :
  usable item = true ->
  exists latitude longitude,
    parseFloat (property item "lat") = Normal latitude /\
    parseFloat (property item "lon") = Normal longitude /\
    transform item =
    Normal {| name := label_of item;
              coordinates := {| latitude := latitude; longitude := longitude |};
              displayName := property item "display_name";
              country := country_of item;
              county := property (property item "address") "county";
              state := property (property item "address") "state" |}.
Proof.
  intros Hus. destruct (usable_not_nullish item Hus) as [Hu Hn].
  assert (Hparts : labelled item = true /\
                   printable (property item "lat") = true /\
                   printable (property item "lon") = true).
  { destruct item; simpl in Hus; try congruence;
      apply andb_prop in Hus as [Hus ?]; apply andb_prop in Hus as [? ?]; auto. }
  destruct Hparts as (Hl & Hlat & Hlon).
  unfold printable, parseFloat in *.
  destruct (ToString (property item "lat")) as [slat|] eqn:Hslat; [|discriminate].
  destruct (ToString (property item "lon")) as [slon|] eqn:Hslon; [|discriminate].
  exists (parseFloat_of_string slat), (parseFloat_of_string slon).
  split; [reflexivity|]. split; [reflexivity|].
  rewrite transform_reads by assumption. unfold label_of, parseFloat.
  rewrite Hslat, Hslon.
  destruct (ToBoolean (property item "name")) eqn:Hname; [reflexivity|].
  rewrite call_split_label by assumption. simpl.
  rewrite split_first_segment.
  unfold labelled in Hl. rewrite Hname in Hl. simpl in Hl.
  destruct (property item "display_name"); try discriminate. reflexivity.
Qed.

Lemma transform_unlabelled (item : value) :
  labelled item = false -> exists e, transform item = Throw e.
Proof.
  intros Hl.
  destruct (classic_nullish item) as [Hnull|[Hu Hn]].
  - destruct Hnull; subst; simpl; eauto.
  - rewrite transform_reads by assumption.
    unfold labelled in Hl. apply orb_false_elim in Hl as [Hname Hdisplay].
    rewrite Hname.
    destruct (property item "display_name"); simpl in *; eauto; discriminate.
Qed.


Lemma transform_unusable (item : value) :
  usable item = false -> exists e, transform item = Throw e.
Proof.
  intros Hus.
  destruct (classic_nullish item) as [Hnull|[Hu Hn]].
  { destruct Hnull; subst; simpl; eauto. }
  destruct (labelled item) eqn:Hl; [|apply transform_unlabelled; exact Hl].
  assert (Hprint : printable (property item "lat")
                   && printable (property item "lon") = false).
  { destruct item; try congruence; unfold usable in Hus;
      cbv beta iota in Hus; rewrite Hl in Hus; exact Hus. }
  rewrite transform_reads by assumption.
  assert (Hname : exists v,
             (if ToBoolean (property item "name")
              then Normal (property item "name")
              else do pieces <- call_split (property item "display_name") ",";
                   Normal (first_element pieces)) = Normal v).
  { destruct (ToBoolean (property item "name")) eqn:Hname; [eauto|].
    rewrite call_split_label by assumption. simpl. eauto. }
  destruct Hname as [v ->]. simpl.
  unfold printable, parseFloat in *.
  destruct (ToString (property item "lat")); simpl; [|eauto].
  destruct (ToString (property item "lon")); simpl; [discriminate|eauto].
Qed.

(** ** Traversal of the candidates *)

Lemma each_Forall2 {A B : Type} (f : A -> completion B) (P : A -> B -> Prop)
  (l : list A) :
  Forall (fun x => exists y, f x = Normal y /\ P x y) l ->
  exists ys, each f l = Normal ys /\ Forall2 P l ys.
Proof.
  induction 1 as [|x rest [y [Hy HP]] _ [ys [Hys HF]]]; simpl.
  - exists []. split; [reflexivity|constructor].
  - exists (y :: ys). rewrite Hy. simpl. rewrite Hys. simpl.
    split; [reflexivity|constructor; assumption].
Qed.

Lemma each_throws {A B : Type} (f : A -> completion B) (l : list A) (x : A) :
  In x l -> (exists e, f x = Throw e) -> exists e, each f l = Throw e.
Proof.
  induction l as [|y rest IH]; simpl; [tauto|].
  intros [->|Hin] Hx.
  - destruct Hx as [e He]. exists e. rewrite He. reflexivity.
  - destruct (f y) as [b|e]; simpl; [|eauto].
    destruct (IH Hin Hx) as [e He]. exists e. rewrite He. reflexivity.
Qed.

Lemma is_empty_array (items : list value) :
  items <> [] -> is_empty (VArray items) = Normal false.
Proof. destruct items; [congruence|reflexivity]. Qed.

Lemma call_map_usable (P : value -> GeocodeResult -> Prop) (items : list value) :
  (forall item r, usable item = true -> transform item = Normal r -> P item r) ->
  Forall (fun item => usable item = true) items ->
  exists results,
    call_map (VArray items) transform = Normal results /\
    Forall2 P items results.
Proof.
  intros HP Hall. simpl. apply each_Forall2.
  eapply Forall_impl; [exact Hall|]. simpl. intros item Hus.
  destruct (transform_usable item Hus) as (la & lo & _ & _ & Ht).
  eexists. split; [exact Ht|]. apply HP; assumption.
Qed.

(** ** Traces *)

Lemma length_snoc_trace (w : World) (ms : Z) (e : event) :
  length (trace (advance ms e w)) = S (length (trace w)).
Proof. unfold advance; simpl. rewrite length_app. simpl. lia. Qed.

Lemma lookups_app (t1 t2 : list event) :
  lookups (t1 ++ t2) = lookups t1 ++ lookups t2.
Proof.
  induction t1 as [|e rest IH]; simpl; [reflexivity|].
  destruct e; simpl; rewrite IH; reflexivity.
Qed.

Lemma timers_app (t1 t2 : list event) :
  timers (t1 ++ t2) = timers t1 ++ timers t2.
Proof.
  induction t1 as [|e rest IH]; simpl; [reflexivity|].
  destruct e; simpl; rewrite IH; reflexivity.
Qed.

Lemma lookups_wait_of (w : World) : lookups (wait_of w) = [].
Proof. unfold wait_of. destruct (elapsed w <? minInterval); reflexivity. Qed.

Lemma timers_wait_of (w : World) :
  timers (wait_of w) =
  if elapsed w <? minInterval then [minInterval - elapsed w] else [].
Proof. unfold wait_of. destruct (elapsed w <? minInterval); reflexivity. Qed.

Create Rewrite HintDb trace.

#[local] Hint Rewrite lookups_app timers_app lookups_wait_of timers_wait_of
  : trace.

Lemma world_eq (c1 c2 : Z) (g1 g2 : NominatimGeocoder) (t1 t2 : list event) :
  c1 = c2 -> g1 = g2 -> t1 = t2 ->
  {| clock := c1; nominatimGeocoder := g1; trace := t1 |} =
  {| clock := c2; nominatimGeocoder := g2; trace := t2 |}.
Proof. congruence. Qed.

(** ** The lookup client *)

(** Runs the lookup up to the point where the network has answered. *)
Ltac run_lookup answer :=
  unfold upstream_answer in answer;
  unfold geocodeUKCity, bind, try_catch, note, fetch;
  rewrite length_snoc_trace, answer; simpl.

Section Lookup.

Context (E : Env) (w : World) (cityName : string) (countryCode : option string).

(** The lookup client always returns normally; it leaves its call and its
    one request on the trace, both at the clock reading of the call, takes
    some time, and does not touch the limiter. *)
Lemma geocodeUKCity_effect :
  exists (r : GeocodeResponse) (spent : N),
    geocodeUKCity cityName countryCode E w =
    (Normal r,
     {| clock := clock w + Z.of_N spent;
        nominatimGeocoder := nominatimGeocoder w;
        trace := trace w ++
                 [LookupCalled (clock w) cityName (default "gb" countryCode);
                  RequestSent (clock w)
                    (request_url cityName (default "gb" countryCode))] |}).
Proof.
  unfold geocodeUKCity, bind, try_catch, note, fetch, json, lift, ret, message_or.
  destruct (network E _ _ _) as [delay settled].
  assert (Hw : forall (r : GeocodeResponse) (extra : N) (c : Z) (t : list event),
             c = clock w + 0 + Z.of_N delay + Z.of_N extra ->
             t = (trace w ++ [LookupCalled (clock w) cityName (default "gb" countryCode)])
                 ++ [RequestSent (clock w + 0)
                       (request_url cityName (default "gb" countryCode))] ->
             exists (r' : GeocodeResponse) (spent : N),
               (Normal r, {| clock := c;
                             nominatimGeocoder := nominatimGeocoder w;
                             trace := t |}) =
               (Normal r',
                {| clock := clock w + Z.of_N spent;
                   nominatimGeocoder := nominatimGeocoder w;
                   trace := trace w ++
                            [LookupCalled (clock w) cityName (default "gb" countryCode);
                             RequestSent (clock w)
                               (request_url cityName (default "gb" countryCode))] |})).
  { intros r extra c t -> ->. exists r, (delay + extra)%N. f_equal.
    apply world_eq; [lia|reflexivity|].
    rewrite <- app_assoc. simpl. repeat f_equal. lia. }
  destruct settled as [response|e]; simpl.
  - destruct (ok response); simpl.
    + destruct (body response) as [data|e]; simpl.
      * destruct (is_empty data) as [[|]|e]; simpl.
        -- eapply (Hw _ (body_delay response)); reflexivity.
        -- destruct (call_map data transform); simpl;
             eapply (Hw _ (body_delay response)); reflexivity.
        -- eapply (Hw _ (body_delay response)); reflexivity.
      * eapply (Hw _ (body_delay response)); reflexivity.
    + eapply (Hw _ 0%N); unfold advance; simpl; [lia|reflexivity].
  - eapply (Hw _ 0%N); unfold advance; simpl; [lia|reflexivity].
Qed.

(** A request that the network rejects. *)
Lemma geocodeUKCity_rejected (delay : N) (e : thrown) :
  upstream_answer E w cityName countryCode = (delay, Throw e) ->
  fst (geocodeUKCity cityName countryCode E w) = Normal (lookup_failed E e).
Proof. intros Hanswer. run_lookup Hanswer. reflexivity. Qed.

Section Answered.

Context (delay : N) (response : Response).
Hypothesis Hanswer :
  upstream_answer E w cityName countryCode = (delay, Normal response).

(** C4: when the upstream answers with a status outside 200..299, the lookup
    returns normally with the error ['Geocoding service unavailable'] and the
    detail [HTTP <status>: <status text>]. *)
Theorem geocodeUKCity_service_unavailable :
  ok response = false ->
  fst (geocodeUKCity cityName countryCode E w) =
  Normal (Failure
            {| error := "Geocoding service unavailable";
               details := Some ("HTTP " +:+ pretty (status response) +:+ ": "
                                +:+ statusText response) |}).
Proof. intros Hok. run_lookup Hanswer. rewrite Hok. reflexivity. Qed.

Section Success.

Hypothesis Hok : ok response = true.

(** The lookup on a success status, by what the body decodes to. *)
Lemma geocodeUKCity_success :
  fst (geocodeUKCity cityName countryCode E w) =
  Normal match body response with
         | Throw e => lookup_failed E e
         | Normal data =>
             match is_empty data with
             | Throw e => lookup_failed E e
             | Normal true => no_results cityName
             | Normal false =>
                 match call_map data transform with
                 | Throw e => lookup_failed E e
                 | Normal results => Results results
                 end
             end
         end.
Proof.
  run_lookup Hanswer. rewrite Hok. simpl.
  unfold json, lift. destruct (body response) as [data|e]; [|reflexivity].
  destruct (is_empty data) as [[|]|e]; try reflexivity.
  destruct (call_map data transform); reflexivity.
Qed.

(** C5: when the upstream answers successfully with an empty list, the
    lookup returns normally with the error [No results found for
    "<cityName>" in the UK], the name exactly as passed in, and a detail
    that suggests checking the spelling. *)
Theorem geocodeUKCity_no_results :
  body response = Normal (VArray []) ->
  fst (geocodeUKCity cityName countryCode E w) =
  Normal (Failure
            {| error := "No results found for " +:+ quote +:+ cityName
                        +:+ quote +:+ " in the UK";
               details := Some "Try checking the spelling or using a more specific location name" |}).
Proof. intros Hbody. rewrite geocodeUKCity_success, Hbody. reflexivity. Qed.

Section Candidates.

Context (items : list value).
Hypothesis Hbody : body response = Normal (VArray items).

Lemma geocodeUKCity_candidates :
  items <> [] ->
  fst (geocodeUKCity cityName countryCode E w) =
  Normal match each transform items with
         | Throw e => lookup_failed E e
         | Normal results => Results results
         end.
Proof.
  intros Hne. rewrite geocodeUKCity_success, Hbody, (is_empty_array items Hne).
  reflexivity.
Qed.

(** C6, as amended: when the upstream answers successfully with a non-empty
    array in which every candidate is usable (not null, with a truthy name or
    a string display name, and with lat and lon values that convert to
    strings), the lookup returns a list with one result per candidate, in
    order; each result's name is the upstream name when that is truthy and
    otherwise the text of the display name before its first comma, its
    displayName is the upstream display name unchanged, its country is the
    upstream address country when that is truthy and otherwise
    ['United Kingdom'], and its county and state are the upstream address
    fields, [undefined] where the upstream omits them. *)
Theorem geocodeUKCity_results :
  items <> [] ->
  Forall (fun item => usable item = true) items ->
  exists results,
    fst (geocodeUKCity cityName countryCode E w) = Normal (Results results) /\
    length results = length items /\
    Forall2 (fun item r =>
               name r = label_of item /\
               displayName r = property item "display_name" /\
               country r = country_of item /\
               county r = property (property item "address") "county" /\
               state r = property (property item "address") "state")
            items results.
Proof.
  intros Hne Hall. rewrite (geocodeUKCity_candidates Hne).
  edestruct (call_map_usable
               (fun item r =>
                  name r = label_of item /\
                  displayName r = property item "display_name" /\
                  country r = country_of item /\
                  county r = property (property item "address") "county" /\
                  state r = property (property item "address") "state")
               items) as (results & Hmap & HF); [|exact Hall|].
  - intros item r Hus Ht.
    destruct (transform_usable item Hus) as (la & lo & _ & _ & Ht').
    rewrite Ht' in Ht. injection Ht as <-. simpl. tauto.
  - exists results. simpl in Hmap. rewrite Hmap. split; [reflexivity|].
    split; [symmetry; eapply Forall2_length; exact HF|exact HF].
Qed.

(** The condition of the amended C6 is also necessary: a list of results
    comes back only if every candidate is usable. *)
Lemma lookup_results_need_usable (results : list GeocodeResult) :
  fst (geocodeUKCity cityName countryCode E w) = Normal (Results results) ->
  Forall (fun item => usable item = true) items.
Proof.
  intros Hres. apply List.Forall_forall. intros item Hin.
  destruct (usable item) eqn:Hus; [reflexivity|exfalso].
  assert (Hne : items <> []) by (destruct items; [destruct Hin|discriminate]).
  rewrite (geocodeUKCity_candidates Hne) in Hres.
  destruct (each_throws transform items item Hin (transform_unusable item Hus))
    as [e He].
  rewrite He in Hres. discriminate.
Qed.


(** C10: when the upstream answers successfully with an array in which some
    candidate has neither a truthy name nor a string display name, the
    lookup returns the catch-all error ['Failed to geocode location'] for
    the whole request, whatever the other candidates are. *)
Theorem geocodeUKCity_unlabelled_candidate (item : value) :
  In item items ->
  ToBoolean (property item "name") = false ->
  is_string (property item "display_name") = false ->
  exists message,
    fst (geocodeUKCity cityName countryCode E w) =
    Normal (Failure {| error := "Failed to geocode location";
                       details := Some message |}).
Proof.
  intros Hin Hname Hdisplay.
  assert (Hne : items <> []) by (destruct items; [destruct Hin|discriminate]).
  rewrite (geocodeUKCity_candidates Hne).
  assert (Hl : labelled item = false)
    by (unfold labelled; rewrite Hname, Hdisplay; reflexivity).
  destruct (each_throws transform items item Hin (transform_unlabelled item Hl))
    as [e He].
  rewrite He. eexists. reflexivity.
Qed.

End Candidates.
End Success.
End Answered.
End Lookup.

(** ** The rate limiter *)

Lemma effective_delay_in_range (delay : Z) :
  1 <= delay <= TIMEOUT_MAX -> effective_delay delay = delay.
Proof.
  intros [Hlo Hhi]. unfold effective_delay.
  apply Z.leb_le in Hlo, Hhi. rewrite Hlo, Hhi. reflexivity.
Qed.

Lemma effective_delay_positive (delay : Z) : 1 <= effective_delay delay.
Proof.
  unfold effective_delay.
  destruct (Z.leb_spec 1 delay); simpl; [|lia].
  destruct (delay <=? TIMEOUT_MAX); lia.
Qed.

Section Limiter.

Context (E : Env).

(** One call through the limiter: it always returns normally, sets at most
    one timer, stamps the clock reading at which it hands over, and calls
    the lookup client once, at that reading. *)
Lemma geocode_effect (w : World) (cityName : string) (countryCode : option string) :
  exists (r : GeocodeResponse) (spent : N),
    geocode cityName countryCode E w =
    (Normal r,
     {| clock := dispatch_time E w + Z.of_N spent;
        nominatimGeocoder := {| lastRequestTime := dispatch_time E w |};
        trace := trace w ++ wait_of w ++
                 [LookupCalled (dispatch_time E w) cityName
                    (default "gb" countryCode);
                  RequestSent (dispatch_time E w)
                    (request_url cityName (default "gb" countryCode))] |}).
Proof.
  unfold geocode, bind, Date_now, get_lastRequestTime, set_lastRequestTime.
  unfold dispatch_time, wait_of. fold (elapsed w).
  destruct (elapsed w <? minInterval); unfold sleep, ret, advance; simpl;
    match goal with
    | |- context [geocodeUKCity ?c ?cc E ?w'] =>
        destruct (geocodeUKCity_effect E w' c cc) as (r & spent & Hrun)
    end;
    rewrite Hrun; simpl; exists r, spent; [|reflexivity].
  f_equal. apply world_eq; [reflexivity|reflexivity|].
  rewrite <- app_assoc. reflexivity.
Qed.

(** After a call, however long the lookup and the pause that follows took,
    the next hand-over is at least [minInterval] after the stamp. *)
Lemma dispatch_time_after_stamp (w : World) :
  lastRequestTime (nominatimGeocoder w) <= clock w ->
  lastRequestTime (nominatimGeocoder w) + minInterval <= dispatch_time E w.
Proof.
  intros Hpast. unfold dispatch_time, elapsed, minInterval in *.
  destruct (Z.ltb_spec (clock w - lastRequestTime (nominatimGeocoder w)) 1000).
  - rewrite effective_delay_in_range by (unfold TIMEOUT_MAX; lia). lia.
  - lia.
Qed.

(** C2: on every call the limiter computes the time since the recorded
    stamp; below 1000 ms it sets one timer of exactly 1000 ms minus that
    time and resumes when the timer has fired, otherwise it sets none and
    goes on at once; either way the stamp it records is the clock reading at
    which the lookup client is called, whatever time the lookup then takes. *)
Theorem geocode_throttle
  (w : World) (cityName : string) (countryCode : option string) :
  let now := clock w in
  let since := now - lastRequestTime (nominatimGeocoder w) in
  let resumed :=
    if since <? 1000
    then now + (effective_delay (1000 - since)
                + Z.of_N (timer_lag E (length (trace w))))
    else now in
  exists (r : GeocodeResponse) (spent : N),
    geocode cityName countryCode E w =
    (Normal r,
     {| clock := resumed + Z.of_N spent;
        nominatimGeocoder := {| lastRequestTime := resumed |};
        trace := trace w
                 ++ (if since <? 1000 then [TimerSet now (1000 - since)] else [])
                 ++ [LookupCalled resumed cityName (default "gb" countryCode);
                     RequestSent resumed
                       (request_url cityName (default "gb" countryCode))] |}).
Proof. exact (geocode_effect w cityName countryCode). Qed.

(** C1: of two calls made one after the other through the limiter, with any
    pause in between, each returns normally and calls the lookup client
    exactly once, for its own name, and the second call of the lookup client
    comes no less than 1000 ms after the first. *)
Theorem geocode_spacing
  (w : World) (city1 city2 : string) (cc1 cc2 : option string) (pause : N) :
  exists (r1 r2 : GeocodeResponse) (w1 w2 : World) (t1 t2 : Z),
    geocode city1 cc1 E w = (Normal r1, w1) /\
    geocode city2 cc2 E (idle pause w1) = (Normal r2, w2) /\
    lookups (trace w2) =
      lookups (trace w) ++ [(t1, city1, default "gb" cc1);
                            (t2, city2, default "gb" cc2)] /\
    t1 + 1000 <= t2.
Proof.
  destruct (geocode_effect w city1 cc1) as (r1 & spent1 & Hrun1).
  match type of Hrun1 with
  | _ = (_, ?w') => set (w1 := w') in *
  end.
  destruct (geocode_effect (idle pause w1) city2 cc2) as (r2 & spent2 & Hrun2).
  eexists r1, r2, w1, _, (dispatch_time E w), (dispatch_time E (idle pause w1)).
  split; [exact Hrun1|]. split; [exact Hrun2|]. split.
  - simpl. autorewrite with trace. simpl.
    rewrite <- app_assoc. reflexivity.
  - pose proof (dispatch_time_after_stamp (idle pause w1)) as Hgap.
    simpl in Hgap. unfold minInterval in Hgap. apply Hgap. lia.
Qed.

(** C9: a new limiter holds the stamp 0, so a first call through it is
    held back exactly when the clock reads less than 1000: it then sets one
    timer of 1000 ms minus the reading, and the lookup client is called, and
    the stamp taken, only when that timer has fired, later than the call and
    (for a reading that is not negative) not before the clock reads 1000;
    when the clock reads 1000 or more the call sets no timer and the lookup
    client is called at the clock reading of the call. *)
Theorem geocode_first_call
  (w : World) (cityName : string) (countryCode : option string) :
  nominatimGeocoder w = new_NominatimGeocoder ->
  lastRequestTime new_NominatimGeocoder = 0 /\
  exists (r : GeocodeResponse) (w' : World) (called : Z),
    geocode cityName countryCode E w = (Normal r, w') /\
    timers (trace w') =
      timers (trace w) ++ (if clock w <? 1000 then [1000 - clock w] else []) /\
    lookups (trace w') =
      lookups (trace w) ++ [(called, cityName, default "gb" countryCode)] /\
    lastRequestTime (nominatimGeocoder w') = called /\
    called =
      (if clock w <? 1000
       then clock w + (effective_delay (1000 - clock w)
                       + Z.of_N (timer_lag E (length (trace w))))
       else clock w) /\
    (clock w < called <-> clock w < 1000) /\
    (0 <= clock w < 1000 -> 1000 <= called) /\
    (1000 <= clock w ->
     timers (trace w') = timers (trace w) /\
     lookups (trace w') =
       lookups (trace w) ++ [(clock w, cityName, default "gb" countryCode)]).
Proof.
  intros Hnew. split; [reflexivity|].
  destruct (geocode_effect w cityName countryCode) as (r & spent & Hrun).
  rewrite Hrun. eexists r, _, (dispatch_time E w). split; [reflexivity|].
  assert (Hsince : elapsed w = clock w)
    by (unfold elapsed; rewrite Hnew; simpl; lia).
  assert (Hcalled : dispatch_time E w =
                    (if clock w <? 1000
                     then clock w + (effective_delay (1000 - clock w)
                                     + Z.of_N (timer_lag E (length (trace w))))
                     else clock w))
    by (unfold dispatch_time; rewrite Hsince; reflexivity).
  simpl. autorewrite with trace.
  rewrite Hsince. unfold minInterval. simpl. rewrite app_nil_r.
  split; [reflexivity|]. split; [reflexivity|]. split; [reflexivity|].
  split; [exact Hcalled|]. rewrite Hcalled.
  pose proof (effective_delay_positive (1000 - clock w)) as Hpositive.
  destruct (Z.ltb_spec (clock w) 1000) as [Hearly|Hlate].
  - split; [split; lia|]. split; [|lia].
    intros Hrange. rewrite effective_delay_in_range by (unfold TIMEOUT_MAX; lia).
    lia.
  - split; [split; lia|]. split; [lia|].
    intros _. rewrite app_nil_r. split; reflexivity.
Qed.

End Limiter.

(** ** The batch driver *)

Section Driver.

Context (limited direct : string -> M GeocodeResponse) (useRateLimiting : bool).

#[local] Abbreviation step := (chosen limited direct useRateLimiting).

(** One turn of the loop body: the try block and its catch. *)
Lemma batch_turn (cityName : string) (results : ResultRecord) (E : Env) (w : World) :
  try_catch
    (if useRateLimiting
     then bind (limited cityName)
            (fun response => ret (assign cityName response results))
     else bind (direct cityName)
            (fun response => ret (assign cityName response results)))
    (fun error =>
       bind (message_or "Unknown error" error)
         (fun message =>
            ret (assign cityName
                   (Failure {| error := "Failed to geocode " +:+ cityName;
                               details := Some message |})
                   results))) E w =
  (Normal (assign cityName (settle E cityName (fst (step cityName E w))) results),
   snd (step cityName E w)).
Proof.
  unfold chosen, try_catch, bind, ret, message_or.
  destruct useRateLimiting;
    match goal with
    | |- context [?f cityName E w] =>
        destruct (f cityName E w) as [[response|e] w1]
    end; reflexivity.
Qed.

Lemma batch_loop_outcomes
  (cityNames : list string) (results : ResultRecord) (E : Env) (w : World) :
  batch_loop limited direct useRateLimiting cityNames results E w =
  (Normal (assign_all (fst (outcomes step cityNames E w)) results),
   snd (outcomes step cityNames E w)).
Proof.
  revert results w.
  induction cityNames as [|cityName rest IH]; intros results w; simpl.
  - reflexivity.
  - unfold bind at 1. rewrite batch_turn, IH.
    destruct (step cityName E w) as [c w1]. simpl.
    destruct (outcomes step rest E w1) as [later w2]. reflexivity.
Qed.

(** The driver never throws, whatever its lookups do. *)
Lemma batch_loop_returns
  (cityNames : list string) (results : ResultRecord) (E : Env) (w : World) :
  exists (r : ResultRecord) (w' : World),
    batch_loop limited direct useRateLimiting cityNames results E w = (Normal r, w').
Proof. rewrite batch_loop_outcomes. eauto. Qed.

End Driver.

Lemma outcomes_names (step : string -> M GeocodeResponse)
  (cityNames : list string) (E : Env) (w : World) :
  map fst (fst (outcomes step cityNames E w)) = cityNames.
Proof.
  revert w. induction cityNames as [|cityName rest IH]; intros w; simpl.
  - reflexivity.
  - destruct (step cityName E w) as [c w1]. specialize (IH w1).
    destruct (outcomes step rest E w1) as [later w2]. simpl in *. congruence.
Qed.

Lemma keys_assign (key : string) (response : GeocodeResponse)
  (results : ResultRecord) :
  keys (assign key response results) =
  if String.eqb key "__proto__" then keys results else {[key]} ∪ keys results.
Proof.
  unfold assign, keys. destruct (String.eqb key "__proto__"); simpl.
  - reflexivity.
  - apply dom_insert_L.
Qed.

(** The keys of the result are the input names other than [__proto__]. *)
Lemma keys_assign_all (assignments : list (string * GeocodeResponse))
  (results : ResultRecord) :
  keys (assign_all assignments results) =
  keys results ∪
  list_to_set (filter (fun key => key <> "__proto__") (map fst assignments)).
Proof.
  revert results. unfold assign_all.
  induction assignments as [|[key response] rest IH]; intros results; simpl.
  - set_solver.
  - rewrite IH, keys_assign.
    destruct (String.eqb_spec key "__proto__") as [->|Hne].
    + rewrite filter_cons_False by (intros H; apply H; reflexivity). reflexivity.
    + rewrite filter_cons_True by assumption. set_solver.
Qed.

(** Of the assignments to one key other than [__proto__], the last one is
    what the record holds. *)
Lemma assign_all_last (before after : list (string * GeocodeResponse))
  (key : string) (response : GeocodeResponse) (results : ResultRecord) :
  key <> "__proto__" ->
  ~ In key (map fst after) ->
  entries (assign_all (before ++ (key, response) :: after) results) !! key
  = Some response.
Proof.
  intros Hne Hlater. unfold assign_all. rewrite fold_left_app. simpl.
  set (r0 := assign key response _).
  assert (H0 : entries r0 !! key = Some response).
  { unfold r0, assign. apply String.eqb_neq in Hne. rewrite Hne. simpl.
    apply lookup_insert_eq. }
  clearbody r0. revert r0 H0.
  induction after as [|[k v] rest IH]; intros r0 H0; simpl; [exact H0|].
  apply IH.
  - intros Hin. apply Hlater. right. exact Hin.
  - unfold assign. destruct (String.eqb k "__proto__"); simpl; [exact H0|].
    rewrite lookup_insert_ne; [exact H0|].
    intros ->. apply Hlater. left. reflexivity.
Qed.

Lemma outcomes_app (step : string -> M GeocodeResponse)
  (first second : list string) (E : Env) (w : World) :
  outcomes step (first ++ second) E w =
  (fst (outcomes step first E w)
   ++ fst (outcomes step second E (snd (outcomes step first E w))),
   snd (outcomes step second E (snd (outcomes step first E w)))).
Proof.
  revert w. induction first as [|cityName rest IH]; intros w; simpl.
  - destruct (outcomes step second E w); reflexivity.
  - destruct (step cityName E w) as [c w1]. rewrite IH.
    destruct (outcomes step rest E w1) as [later w2]. reflexivity.
Qed.

(** The entry of a name other than [__proto__] is what its last lookup
    settled to: the response it returned, or the error built from what it
    threw; the names after it are still looked up. *)
Lemma batch_loop_entry
  (limited direct : string -> M GeocodeResponse) (useRateLimiting : bool)
  (before after : list string) (cityName : string)
  (results : ResultRecord) (E : Env) (w : World) :
  cityName <> "__proto__" ->
  ~ In cityName after ->
  exists (r : ResultRecord) (w' : World),
    batch_loop limited direct useRateLimiting (before ++ cityName :: after)
      results E w = (Normal r, w') /\
    entries r !! cityName =
    Some (settle E cityName
            (fst (chosen limited direct useRateLimiting cityName E
                    (snd (outcomes (chosen limited direct useRateLimiting)
                            before E w))))).
Proof.
  intros Hne Hlast. rewrite batch_loop_outcomes. eexists _, _.
  split; [reflexivity|]. rewrite outcomes_app. simpl.
  set (step := chosen limited direct useRateLimiting).
  set (w0 := snd (outcomes step before E w)).
  destruct (step cityName E w0) as [c w1] eqn:Hstep.
  pose proof (outcomes_names step after E w1) as Hnames.
  destruct (outcomes step after E w1) as [later w2]. simpl in *.
  apply assign_all_last; [exact Hne|]. rewrite Hnames. exact Hlast.
Qed.

(** On a list without [__proto__] the driver returns a record whose keys
    are the distinct input names. *)
Lemma batchGeocodeUKCities_keys
  (E : Env) (w : World) (cityNames : list string) (useRateLimiting : option bool) :
  ~ In "__proto__" cityNames ->
  exists (r : ResultRecord) (w' : World),
    batchGeocodeUKCities cityNames useRateLimiting E w = (Normal r, w') /\
    keys r = list_to_set cityNames.
Proof.
  intros Hfree. unfold batchGeocodeUKCities. rewrite batch_loop_outcomes.
  eexists _, _. split; [reflexivity|].
  rewrite keys_assign_all, outcomes_names. unfold keys. simpl.
  assert (Hfilter : filter (fun key => key <> "__proto__") cityNames = cityNames).
  { induction cityNames as [|n rest IH]; [reflexivity|].
    rewrite filter_cons_True by (intros ->; apply Hfree; left; reflexivity).
    f_equal. apply IH. intros Hin. apply Hfree. right. exact Hin. }
  rewrite Hfilter. set_solver.
Qed.

(** A lookup that throws for [__proto__]: the driver returns normally and
    the error it built became the record's prototype. *)
Lemma batch_loop_proto_caught
  (E : Env) (w : World) (useRateLimiting : bool) (e : thrown) :
  batch_loop (rejecting e) (rejecting e) useRateLimiting ["__proto__"]
    empty_record E w =
  (Normal {| entries := ∅;
             prototype := Some (batch_failed E "__proto__" e) |}, w).
Proof. destruct useRateLimiting; reflexivity. Qed.

(** C3, at the name [__proto__]: asked for the one name ["__proto__"], the
    driver returns normally a record that has no entry for it; the response
    became the record's prototype. *)
Theorem batchGeocodeUKCities_proto_entry
  (E : Env) (w : World) (useRateLimiting : option bool) :
  exists (r : ResultRecord) (w' : World),
    batchGeocodeUKCities ["__proto__"] useRateLimiting E w = (Normal r, w') /\
    entries r !! "__proto__" = None /\
    is_Some (prototype r).
Proof.
  unfold batchGeocodeUKCities. rewrite batch_loop_outcomes.
  match goal with
  | |- context [outcomes ?step] => set (step0 := step)
  end.
  simpl. destruct (step0 "__proto__" E w) as [c1 w1].
  eexists _, _. split; [reflexivity|]. simpl. split; [reflexivity|eauto].
Qed.

(** C8, at the name [__proto__]: asked for ["Leeds"; "__proto__"], the
    driver returns a record whose only key is ["Leeds"]; the response for
    [__proto__] became the record's prototype. *)
Theorem batchGeocodeUKCities_proto_key
  (E : Env) (w : World) (useRateLimiting : option bool) :
  exists (r : ResultRecord) (w' : World) (response : GeocodeResponse),
    batchGeocodeUKCities ["Leeds"; "__proto__"] useRateLimiting E w
    = (Normal r, w') /\
    keys r = {["Leeds"]} /\
    prototype r = Some response.
Proof.
  unfold batchGeocodeUKCities. rewrite batch_loop_outcomes.
  match goal with
  | |- context [outcomes ?step] => set (step0 := step)
  end.
  simpl.
  destruct (step0 "Leeds" E w) as [c1 w1].
  destruct (step0 "__proto__" E w1) as [c2 w2].
  eexists _, _, _. split; [reflexivity|]. simpl. split; [|reflexivity].
  unfold keys. simpl. rewrite dom_insert_L. set_solver.
Qed.

(** ** The statements at sample inputs *)

Lemma geocodeUKCity_service_unavailable_503 :
  fst (geocodeUKCity "Leeds" None
         (stub 503 "Service Unavailable" (Normal VNull)) (boot 1700000000000)) =
  Normal (Failure {| error := "Geocoding service unavailable";
                     details := Some "HTTP 503: Service Unavailable" |}).
Proof.
  exact (geocodeUKCity_service_unavailable
           (stub 503 "Service Unavailable" (Normal VNull)) (boot 1700000000000)
           "Leeds" None 120%N
           {| status := 503; statusText := "Service Unavailable";
              body := Normal VNull; body_delay := 5 |}
           eq_refl eq_refl).
Defined.

Lemma geocodeUKCity_no_results_sample :
  fst (geocodeUKCity " Atlantis " None
         (stub 200 "OK" (Normal (VArray []))) (boot 1700000000000)) =
  Normal (Failure
            {| error := "No results found for " +:+ quote +:+ " Atlantis "
                        +:+ quote +:+ " in the UK";
               details := Some "Try checking the spelling or using a more specific location name" |}).
Proof.
  exact (geocodeUKCity_no_results
           (stub 200 "OK" (Normal (VArray []))) (boot 1700000000000)
           " Atlantis " None 120%N
           {| status := 200; statusText := "OK";
              body := Normal (VArray []); body_delay := 5 |}
           eq_refl eq_refl eq_refl).
Defined.

(** C6, as stated, fails on a candidate that has no fields: the upstream
    answers successfully with one candidate, and the lookup returns the
    catch-all error instead of a list of one result. *)
Lemma geocodeUKCity_bare_candidate :
  fst (geocodeUKCity "Leeds" None
         (stub 200 "OK" (Normal (VArray [VObject []]))) (boot 1700000000000)) =
  Normal (Failure
            {| error := "Failed to geocode location";
               details := Some "Cannot read properties of undefined (reading 'split')" |}).
Proof. reflexivity. Qed.

(** A full answer: the second candidate has no short name and coordinates
    that are not numbers. *)
Example geocodeUKCity_two_candidates :
  fst (geocodeUKCity "Manchester" None
         (stub 200 "OK" (Normal (VArray [manchester; unnamed_place])))
         (boot 1700000000000)) =
  Normal (Results
            [{| name := VString "Manchester";
                coordinates := {| latitude := Finite false 534794892 (-7);
                                  longitude := Finite true 22451148 (-7) |};
                displayName := VString "Manchester, Greater Manchester, England";
                country := VString "United Kingdom";
                county := VString "Greater Manchester";
                state := VString "England" |};
             {| name := VString "Ashby";
                coordinates := {| latitude := NaN; longitude := NaN |};
                displayName := VString "Ashby, Leicestershire";
                country := VString "United Kingdom";
                county := VUndefined;
                state := VUndefined |}]).
Proof. reflexivity. Qed.

Lemma geocodeUKCity_results_sample :
  exists results,
    fst (geocodeUKCity "Manchester" None
           (stub 200 "OK" (Normal (VArray [manchester; unnamed_place])))
           (boot 1700000000000)) = Normal (Results results) /\
    length results = 2%nat /\
    Forall2 (fun item r =>
               name r = label_of item /\
               displayName r = property item "display_name" /\
               country r = country_of item /\
               county r = property (property item "address") "county" /\
               state r = property (property item "address") "state")
            [manchester; unnamed_place] results.
Proof.
  refine (geocodeUKCity_results
            (stub 200 "OK" (Normal (VArray [manchester; unnamed_place])))
            (boot 1700000000000) "Manchester" None 120%N
            {| status := 200; statusText := "OK";
               body := Normal (VArray [manchester; unnamed_place]);
               body_delay := 5 |}
            eq_refl eq_refl [manchester; unnamed_place] eq_refl _ _).
  - discriminate.
  - repeat constructor.
Defined.


Lemma geocodeUKCity_unlabelled_candidate_sample :
  exists message,
    fst (geocodeUKCity "Manchester" None
           (stub 200 "OK" (Normal (VArray [manchester; VObject []])))
           (boot 1700000000000)) =
    Normal (Failure {| error := "Failed to geocode location";
                       details := Some message |}).
Proof.
  refine (geocodeUKCity_unlabelled_candidate
            (stub 200 "OK" (Normal (VArray [manchester; VObject []])))
            (boot 1700000000000) "Manchester" None 120%N
            {| status := 200; statusText := "OK";
               body := Normal (VArray [manchester; VObject []]);
               body_delay := 5 |}
            eq_refl eq_refl [manchester; VObject []] eq_refl (VObject [])
            _ eq_refl eq_refl).
  right. left. reflexivity.
Defined.

(** The stamp is the clock reading at the call of the lookup client: here
    the lookup takes 125 ms and the stamp stays at the reading of the call. *)
Example geocode_stamp_before_return :
  let w' := snd (geocode "Leeds" None
                   (stub 200 "OK" (Normal (VArray [manchester])))
                   (boot 1700000000000)) in
  lastRequestTime (nominatimGeocoder w') = 1700000000000 /\
  clock w' = 1700000000125.
Proof. split; reflexivity. Qed.

(** A second call 200 ms after the first is held back by a timer of 800 ms;
    a second call 1500 ms after the first sets no timer. *)
Example geocode_second_call_after_200ms :
  let E := stub 200 "OK" (Normal (VArray [manchester])) in
  let w1 := snd (geocode "Leeds" None E (boot 1700000000000)) in
  let w2 := snd (geocode "York" None E (idle 75 w1)) in
  timers (trace w2) = [800] /\
  lookups (trace w2) =
    [(1700000000000, "Leeds", "gb"); (1700000001000, "York", "gb")].
Proof. split; reflexivity. Qed.

Example geocode_second_call_after_1500ms :
  let E := stub 200 "OK" (Normal (VArray [manchester])) in
  let w1 := snd (geocode "Leeds" None E (boot 1700000000000)) in
  let w2 := snd (geocode "York" None E (idle 1375 w1)) in
  timers (trace w2) = [] /\
  lookups (trace w2) =
    [(1700000000000, "Leeds", "gb"); (1700000001500, "York", "gb")].
Proof. split; reflexivity. Qed.

Lemma geocode_first_call_sample :
  lastRequestTime new_NominatimGeocoder = 0 /\
  exists (r : GeocodeResponse) (w' : World) (called : Z),
    geocode "Leeds" None (stub 200 "OK" (Normal (VArray [manchester])))
      (boot 400) = (Normal r, w') /\
    timers (trace w') = [600] /\
    lookups (trace w') = [(called, "Leeds", "gb")] /\
    lastRequestTime (nominatimGeocoder w') = called /\
    called = 1000 /\
    (400 < called <-> 400 < 1000) /\
    (0 <= 400 < 1000 -> 1000 <= called) /\
    (1000 <= 400 ->
     timers (trace w') = [] /\
     lookups (trace w') = [(400, "Leeds", "gb")]).
Proof.
  exact (geocode_first_call (stub 200 "OK" (Normal (VArray [manchester])))
           (boot 400) "Leeds" None eq_refl).
Defined.

(** A first call with the clock at an epoch reading: no timer, the lookup
    at the reading of the call; and one with the clock at 400: a timer of
    600 ms, the lookup and the stamp at 1000. *)
Example geocode_first_call_late :
  let w' := snd (geocode "Leeds" None
                   (stub 200 "OK" (Normal (VArray [manchester])))
                   (boot 1700000000000)) in
  timers (trace w') = [] /\
  lookups (trace w') = [(1700000000000, "Leeds", "gb")] /\
  lastRequestTime (nominatimGeocoder w') = 1700000000000.
Proof. repeat split; reflexivity. Qed.

Example geocode_first_call_early :
  let w' := snd (geocode "Leeds" None
                   (stub 200 "OK" (Normal (VArray [manchester])))
                   (boot 400)) in
  timers (trace w') = [600] /\
  lookups (trace w') = [(1000, "Leeds", "gb")] /\
  lastRequestTime (nominatimGeocoder w') = 1000.
Proof. repeat split; reflexivity. Qed.

(** * Further properties *)

(** ** The lookup client, over every way a request can settle *)

Lemma geocodeUKCity_classified
  (E : Env) (w : World) (cityName : string) (countryCode : option string) :
  fst (geocodeUKCity cityName countryCode E w) =
  Normal (classify E cityName (snd (upstream_answer E w cityName countryCode))).
Proof.
  destruct (upstream_answer E w cityName countryCode)
    as [delay [response|e]] eqn:Hanswer; simpl.
  - destruct (ok response) eqn:Hok.
    + exact (geocodeUKCity_success E w cityName countryCode delay response
               Hanswer Hok).
    + run_lookup Hanswer. rewrite Hok. reflexivity.
  - exact (geocodeUKCity_rejected E w cityName countryCode delay e Hanswer).
Qed.

Lemma each_length {A B : Type} (f : A -> completion B) (l : list A)
  (ys : list B) :
  each f l = Normal ys -> length ys = length l.
Proof.
  revert ys. induction l as [|x rest IH]; intros ys; simpl.
  - intros [= <-]. reflexivity.
  - destruct (f x) as [y|e]; simpl; [|discriminate].
    destruct (each f rest) as [ys'|e]; simpl; [|discriminate].
    intros [= <-]. simpl. f_equal. apply IH. reflexivity.
Qed.

Lemma each_Forall {A B : Type} (f : A -> completion B) (P : B -> Prop)
  (l : list A) (ys : list B) :
  (forall x y, f x = Normal y -> P y) ->
  each f l = Normal ys -> Forall P ys.
Proof.
  intros HP. revert ys. induction l as [|x rest IH]; intros ys; simpl.
  - intros [= <-]. constructor.
  - destruct (f x) as [y|e] eqn:Hx; simpl; [|discriminate].
    destruct (each f rest) as [ys'|e]; simpl; [|discriminate].
    intros [= <-]. constructor; [eapply HP; exact Hx|apply IH; reflexivity].
Qed.

(** A list of results can only come from a non-empty array. *)
Lemma classify_results (E : Env) (cityName : string)
  (settled : completion Response) (results : list GeocodeResult) :
  classify E cityName settled = Results results ->
  exists (response : Response) (items : list value),
    settled = Normal response /\ ok response = true /\
    body response = Normal (VArray items) /\ items <> [] /\
    each transform items = Normal results.
Proof.
  unfold classify, lookup_failed, no_results, unavailable.
  destruct settled as [response|e]; [|discriminate].
  destruct (ok response) eqn:Hok; [|discriminate].
  destruct (body response) as [data|e] eqn:Hbody; [|discriminate].
  destruct (is_empty data) as [[|]|e] eqn:Hempty; try discriminate.
  destruct (call_map data transform) as [rs|e] eqn:Hmap; [|discriminate].
  intros [= <-].
  destruct data; simpl in Hmap; try discriminate.
  exists response, elements. repeat split; try assumption.
  intros ->. discriminate.
Qed.

(** X1: for a name of code units below 256, the names of this model,
    whatever the network does, the lookup returns a value and never throws;
    it sends exactly one request, for the URL built from the name, at the
    clock reading of the call, and it leaves the limiter's stamp as it was;
    the clock does not go back. *)
Theorem geocodeUKCity_single_request
  (E : Env) (w : World) (cityName : string) (countryCode : option string) :
  exists (r : GeocodeResponse) (w' : World),
    geocodeUKCity cityName countryCode E w = (Normal r, w') /\
    trace w' =
      trace w ++ [LookupCalled (clock w) cityName (default "gb" countryCode);
                  RequestSent (clock w)
                    (request_url cityName (default "gb" countryCode))] /\
    nominatimGeocoder w' = nominatimGeocoder w /\
    clock w <= clock w'.
Proof.
  destruct (geocodeUKCity_effect E w cityName countryCode) as (r & spent & Hrun).
  rewrite Hrun. eexists r, _. split; [reflexivity|]. simpl.
  split; [reflexivity|]. split; [reflexivity|lia].
Qed.

(** X2: when [fetch] rejects, the lookup returns the catch-all error with
    the message of the rejection as detail, and ['Unknown error occurred']
    when what was thrown is not an [Error]. *)
Theorem geocodeUKCity_network_error
  (E : Env) (w : World) (cityName : string) (countryCode : option string)
  (delay : N) (e : thrown) :
  upstream_answer E w cityName countryCode = (delay, Throw e) ->
  fst (geocodeUKCity cityName countryCode E w) =
  Normal (Failure
            {| error := "Failed to geocode location";
               details := Some match e with
                               | TypeError why => engine_message E why
                               | HostError message => message
                               | HostValue => "Unknown error occurred"
                               end |}).
Proof.
  intros Hanswer. rewrite geocodeUKCity_classified, Hanswer. reflexivity.
Qed.

(** X3: when the status is a success but the body does not decode, the
    lookup returns the catch-all error with the decoder's message. *)
Theorem geocodeUKCity_undecodable_body
  (E : Env) (w : World) (cityName : string) (countryCode : option string)
  (delay : N) (response : Response) (e : thrown) :
  upstream_answer E w cityName countryCode = (delay, Normal response) ->
  ok response = true ->
  body response = Throw e ->
  fst (geocodeUKCity cityName countryCode E w) =
  Normal (Failure
            {| error := "Failed to geocode location";
               details := Some match e with
                               | TypeError why => engine_message E why
                               | HostError message => message
                               | HostValue => "Unknown error occurred"
                               end |}).
Proof.
  intros Hanswer Hok Hbody. rewrite geocodeUKCity_classified, Hanswer.
  simpl. rewrite Hok, Hbody. reflexivity.
Qed.

(** X4: a successful answer whose body is falsy ([null], [false], [0], the
    empty string) is reported as no results for the name. *)
Theorem geocodeUKCity_falsy_body
  (E : Env) (w : World) (cityName : string) (countryCode : option string)
  (delay : N) (response : Response) (data : value) :
  upstream_answer E w cityName countryCode = (delay, Normal response) ->
  ok response = true ->
  body response = Normal data ->
  ToBoolean data = false ->
  fst (geocodeUKCity cityName countryCode E w) =
  Normal (Failure
            {| error := "No results found for " +:+ quote +:+ cityName
                        +:+ quote +:+ " in the UK";
               details := Some "Try checking the spelling or using a more specific location name" |}).
Proof.
  intros Hanswer Hok Hbody Hfalsy. rewrite geocodeUKCity_classified, Hanswer.
  simpl. rewrite Hok, Hbody. unfold is_empty. rewrite Hfalsy. reflexivity.
Qed.

(** X5: a successful answer whose body is truthy, is not an array and has
    no [length] equal to 0 (an object, a number, a string) is reported as
    the catch-all error: the body has no [map] to call. *)
Theorem geocodeUKCity_body_not_array
  (E : Env) (w : World) (cityName : string) (countryCode : option string)
  (delay : N) (response : Response) (data : value) :
  upstream_answer E w cityName countryCode = (delay, Normal response) ->
  ok response = true ->
  body response = Normal data ->
  is_empty data = Normal false ->
  (forall items, data <> VArray items) ->
  fst (geocodeUKCity cityName countryCode E w) =
  Normal (Failure {| error := "Failed to geocode location";
                     details := Some (engine_message E (NotAFunction "map")) |}).
Proof.
  intros Hanswer Hok Hbody Hempty Harray.
  rewrite geocodeUKCity_classified, Hanswer.
  simpl. rewrite Hok, Hbody, Hempty.
  destruct data; simpl in *; try discriminate; try reflexivity.
  exfalso. eapply Harray. reflexivity.
Qed.

(** X6: the lookup returns either a non-empty list of results or an error
    with one of three messages, always with a detail; nothing else. *)
Theorem geocodeUKCity_outcomes
  (E : Env) (w : World) (cityName : string) (countryCode : option string) :
  exists r : GeocodeResponse,
    fst (geocodeUKCity cityName countryCode E w) = Normal r /\
    ((exists results, r = Results results /\ results <> []) \/
     (exists detail,
        r = Failure {| error := "Geocoding service unavailable";
                       details := Some detail |}) \/
     (exists detail,
        r = Failure {| error := "No results found for " +:+ quote +:+ cityName
                                +:+ quote +:+ " in the UK";
                       details := Some detail |}) \/
     (exists detail,
        r = Failure {| error := "Failed to geocode location";
                       details := Some detail |})).
Proof.
  rewrite geocodeUKCity_classified. eexists. split; [reflexivity|].
  destruct (classify E cityName (snd (upstream_answer E w cityName countryCode)))
    as [results|failure] eqn:Hclass.
  - left. exists results. split; [reflexivity|].
    destruct (classify_results _ _ _ _ Hclass)
      as (response & items & _ & _ & _ & Hne & Heach).
    apply each_length in Heach. intros ->. destruct items; [congruence|discriminate].
  - right. revert Hclass. unfold classify, lookup_failed, no_results, unavailable.
    destruct (snd (upstream_answer E w cityName countryCode)) as [response|e].
    + destruct (ok response).
      * destruct (body response) as [data|e].
        -- destruct (is_empty data) as [[|]|e].
           ++ intros [= <-]. right. left. eauto.
           ++ destruct (call_map data transform); [discriminate|].
              intros [= <-]. right. right. eauto.
           ++ intros [= <-]. right. right. eauto.
        -- intros [= <-]. right. right. eauto.
      * intros [= <-]. left. eauto.
    + intros [= <-]. right. right. eauto.
Qed.

(** X7: a list of results is returned only for a successful answer that
    carries a non-empty array, and it has one result per candidate. *)
Theorem geocodeUKCity_results_from_array
  (E : Env) (w : World) (cityName : string) (countryCode : option string)
  (results : list GeocodeResult) :
  fst (geocodeUKCity cityName countryCode E w) = Normal (Results results) ->
  exists (response : Response) (items : list value),
    snd (upstream_answer E w cityName countryCode) = Normal response /\
    ok response = true /\
    body response = Normal (VArray items) /\
    length results = length items /\
    results <> [].
Proof.
  rewrite geocodeUKCity_classified. intros [= Hclass].
  destruct (classify_results _ _ _ _ Hclass)
    as (response & items & Hsettled & Hok & Hbody & Hne & Heach).
  apply each_length in Heach. exists response, items.
  repeat split; try assumption.
  intros ->. destruct items; [congruence|discriminate].
Qed.

(** The fields the transformation fills in by fallback. *)
Lemma transform_fields (item : value) (r : GeocodeResult) :
  transform item = Normal r ->
  ToBoolean (country r) = true /\
  (ToBoolean (name r) = true \/ is_string (name r) = true).
Proof.
  intros Ht.
  destruct (usable item) eqn:Hus.
  - destruct (transform_usable item Hus) as (la & lo & _ & _ & Ht').
    rewrite Ht' in Ht. injection Ht as <-. simpl. split.
    + unfold country_of.
      destruct (ToBoolean (property (property item "address") "country")) eqn:Hc;
        [exact Hc|reflexivity].
    + unfold label_of. destruct (ToBoolean (property item "name")) eqn:Hn;
        [left; exact Hn|right].
      assert (Hparts : labelled item = true).
      { destruct item; simpl in Hus; try discriminate;
          apply andb_prop in Hus as [Hus _]; apply andb_prop in Hus as [Hus _];
          exact Hus. }
      unfold labelled in Hparts. rewrite Hn in Hparts. simpl in Hparts.
      destruct (property item "display_name"); try discriminate. reflexivity.
  - destruct (transform_unusable item Hus) as [e He]. congruence.
Qed.

(** X8: every result the lookup returns has a truthy country, and a name
    that is truthy or at least a string (the text before the first comma of
    the display name may be empty). *)
Theorem geocodeUKCity_result_fields
  (E : Env) (w : World) (cityName : string) (countryCode : option string)
  (results : list GeocodeResult) :
  fst (geocodeUKCity cityName countryCode E w) = Normal (Results results) ->
  Forall (fun r => ToBoolean (country r) = true /\
                   (ToBoolean (name r) = true \/ is_string (name r) = true))
         results.
Proof.
  rewrite geocodeUKCity_classified. intros [= Hclass].
  destruct (classify_results _ _ _ _ Hclass)
    as (response & items & _ & _ & _ & _ & Heach).
  eapply each_Forall; [|exact Heach]. intros item r. apply transform_fields.
Qed.

(** ** The request *)

Lemma append_cons (c : ascii) (a b : string) :
  String c a +:+ b = String c (a +:+ b).
Proof. reflexivity. Qed.

Lemma append_nil_l (s : string) : "" +:+ s = s.
Proof. reflexivity. Qed.

Lemma append_nil_r (s : string) : s +:+ "" = s.
Proof.
  induction s as [|c rest IH]; [reflexivity|].
  rewrite append_cons, IH. reflexivity.
Qed.

Lemma append_assoc (a b c : string) : (a +:+ b) +:+ c = a +:+ (b +:+ c).
Proof.
  induction a as [|x rest IH]; [reflexivity|].
  rewrite !append_cons, IH. reflexivity.
Qed.

Lemma rev_app_append (s acc : string) :
  String.rev_app s acc = String.rev s +:+ acc.
Proof.
  unfold String.rev. revert acc.
  induction s as [|c rest IH]; intros acc; simpl; [reflexivity|].
  rewrite (IH (String c acc)), (IH (String c "")), append_assoc. reflexivity.
Qed.

Lemma rev_cons (c : ascii) (s : string) :
  String.rev (String c s) = String.rev s +:+ String c "".
Proof. unfold String.rev at 1. simpl. apply rev_app_append. Qed.

Lemma rev_append (a b : string) :
  String.rev (a +:+ b) = String.rev b +:+ String.rev a.
Proof.
  induction a as [|c rest IH].
  - rewrite append_nil_l. change (String.rev "") with "".
    rewrite append_nil_r. reflexivity.
  - rewrite append_cons, !rev_cons, IH, append_assoc. reflexivity.
Qed.

Lemma rev_involutive (s : string) : String.rev (String.rev s) = s.
Proof.
  induction s as [|c rest IH]; [reflexivity|].
  rewrite rev_cons, rev_append, IH. reflexivity.
Qed.

Lemma string_forall_append (P : ascii -> bool) (a b : string) :
  string_forall P (a +:+ b) = string_forall P a && string_forall P b.
Proof.
  induction a as [|c rest IH]; [reflexivity|].
  rewrite append_cons. simpl. rewrite IH, andb_assoc. reflexivity.
Qed.

Lemma string_forall_rev (P : ascii -> bool) (s : string) :
  string_forall P (String.rev s) = string_forall P s.
Proof.
  induction s as [|c rest IH]; [reflexivity|].
  rewrite rev_cons, string_forall_append, IH. simpl.
  rewrite andb_true_r, andb_comm. reflexivity.
Qed.

Lemma trim_start_blank (s : string) :
  string_forall is_white_space s = true -> trim_start s = "".
Proof.
  induction s as [|c rest IH]; simpl; [reflexivity|].
  intros H. apply andb_prop in H as [Hc Hrest]. rewrite Hc. apply IH, Hrest.
Qed.

Lemma trim_start_append (a b : string) :
  trim_start (a +:+ b) =
  if string_forall is_white_space a then trim_start b else trim_start a +:+ b.
Proof.
  induction a as [|c rest IH]; [reflexivity|].
  rewrite append_cons. simpl.
  destruct (is_white_space c); simpl; [exact IH|reflexivity].
Qed.

Lemma trim_start_idempotent (s : string) :
  trim_start (trim_start s) = trim_start s.
Proof.
  induction s as [|c rest IH]; simpl; [reflexivity|].
  destruct (is_white_space c) eqn:Hc; [exact IH|]. simpl. rewrite Hc. reflexivity.
Qed.

(** [trim_end], one character at a time. *)
Lemma trim_end_cons (c : ascii) (rest : string) :
  trim_end (String c rest) =
  if string_forall is_white_space rest
  then (if is_white_space c then "" else String c "")
  else String c (trim_end rest).
Proof.
  unfold trim_end. rewrite rev_cons, trim_start_append, string_forall_rev.
  destruct (string_forall is_white_space rest).
  - simpl. destruct (is_white_space c); reflexivity.
  - rewrite rev_append. reflexivity.
Qed.

Lemma trim_end_idempotent (s : string) : trim_end (trim_end s) = trim_end s.
Proof.
  unfold trim_end. rewrite rev_involutive, trim_start_idempotent. reflexivity.
Qed.

Lemma trim_start_trim (s : string) : trim_start (trim s) = trim s.
Proof.
  unfold trim. destruct (trim_start s) as [|c rest] eqn:Ht; [reflexivity|].
  assert (Hc : is_white_space c = false).
  { clear -Ht. induction s as [|d s' IH]; simpl in Ht; [discriminate|].
    destruct (is_white_space d) eqn:Hd; [exact (IH Ht)|].
    injection Ht as -> _. exact Hd. }
  rewrite trim_end_cons, Hc.
  destruct (string_forall is_white_space rest); simpl; rewrite Hc; reflexivity.
Qed.

Lemma trim_idempotent (s : string) : trim (trim s) = trim s.
Proof.
  unfold trim at 1. rewrite trim_start_trim. unfold trim.
  apply trim_end_idempotent.
Qed.

Lemma hex_digit_safe (k : N) : (k < 16)%N -> is_url_safe (hex_digit k) = true.
Proof.
  intros Hk.
  assert (Hcases : (k = 0 \/ k = 1 \/ k = 2 \/ k = 3 \/ k = 4 \/ k = 5 \/ k = 6
                    \/ k = 7 \/ k = 8 \/ k = 9 \/ k = 10 \/ k = 11 \/ k = 12
                    \/ k = 13 \/ k = 14 \/ k = 15)%N) by lia.
  repeat (destruct Hcases as [->|Hcases]; [reflexivity|]).
  subst. reflexivity.
Qed.

Lemma percent_byte_safe (b : N) (rest : string) :
  (b < 256)%N ->
  string_forall is_url_safe rest = true ->
  string_forall is_url_safe (percent_byte b rest) = true.
Proof.
  intros Hb Hrest. unfold percent_byte. simpl.
  rewrite !hex_digit_safe, Hrest; [reflexivity| |].
  - apply N.mod_lt. discriminate.
  - apply N.Div0.div_lt_upper_bound. lia.
Qed.

Lemma encodeURIComponent_safe (s : string) :
  string_forall is_url_safe (encodeURIComponent s) = true.
Proof.
  induction s as [|c rest IH]; simpl; [reflexivity|].
  pose proof (N_ascii_bounded c) as Hc. fold (code c) in Hc.
  destruct (is_uri_unreserved c) eqn:Hu.
  - simpl. unfold is_url_safe at 1. rewrite Hu, IH. reflexivity.
  - destruct (N.ltb (code c) 128).
    + apply percent_byte_safe; [lia|exact IH].
    + apply percent_byte_safe.
      * assert (code c / 64 < 4)%N by (apply N.Div0.div_lt_upper_bound; lia). lia.
      * apply percent_byte_safe; [|exact IH].
        pose proof (N.mod_lt (code c) 64). lia.
Qed.

Lemma request_url_shape (cityName countryCode : string) :
  request_url cityName countryCode =
  url_before_name +:+ encodeURIComponent (trim cityName)
  +:+ "&countrycodes=" +:+ countryCode +:+ url_after_region.
Proof. reflexivity. Qed.

(** X9: the request URL is the fixed search address, the encoded name, the
    region and the fixed options; the encoded name is made of letters,
    digits, [- _ . ! ~ * ' ( )] and percent escapes only, so a name cannot
    add or change a query parameter. *)
Theorem request_url_name_encoded (cityName countryCode : string) :
  exists q : string,
    request_url cityName countryCode =
    url_before_name +:+ q +:+ "&countrycodes=" +:+ countryCode
    +:+ url_after_region /\
    string_forall is_url_safe q = true.
Proof.
  exists (encodeURIComponent (trim cityName)).
  split; [apply request_url_shape|apply encodeURIComponent_safe].
Qed.

(** X10: white space around the name does not change the request. *)
Theorem request_url_trimmed (cityName countryCode : string) :
  request_url (trim cityName) countryCode = request_url cityName countryCode.
Proof. rewrite !request_url_shape, trim_idempotent. reflexivity. Qed.

(** X11: a name that is empty or all white space is not turned away: the
    lookup still sends its one request, with an empty [q]. *)
Theorem geocodeUKCity_blank_name
  (E : Env) (w : World) (cityName : string) (countryCode : option string) :
  string_forall is_white_space cityName = true ->
  exists (r : GeocodeResponse) (w' : World),
    geocodeUKCity cityName countryCode E w = (Normal r, w') /\
    trace w' =
      trace w ++ [LookupCalled (clock w) cityName (default "gb" countryCode);
                  RequestSent (clock w)
                    (url_before_name +:+ "&countrycodes="
                     +:+ default "gb" countryCode +:+ url_after_region)].
Proof.
  intros Hblank.
  destruct (geocodeUKCity_effect E w cityName countryCode) as (r & spent & Hrun).
  rewrite Hrun. eexists r, _. split; [reflexivity|]. simpl.
  rewrite request_url_shape. unfold trim.
  rewrite (trim_start_blank cityName Hblank). reflexivity.
Qed.

(** ** The limiter's stamp *)

Lemma dispatch_time_not_before (E : Env) (w : World) :
  clock w <= dispatch_time E w.
Proof.
  unfold dispatch_time. destruct (elapsed w <? minInterval); [|lia].
  pose proof (effective_delay_positive (minInterval - elapsed w)). lia.
Qed.

(** X12: after any call through the limiter the stamp is the reading at
    which the lookup was called: not before the reading at which the call
    was made, and not after the reading at which it returned. *)
Theorem geocode_stamp_between
  (E : Env) (w : World) (cityName : string) (countryCode : option string) :
  exists (r : GeocodeResponse) (w' : World),
    geocode cityName countryCode E w = (Normal r, w') /\
    clock w <= lastRequestTime (nominatimGeocoder w') <= clock w'.
Proof.
  destruct (geocode_effect E w cityName countryCode) as (r & spent & Hrun).
  rewrite Hrun. eexists r, _. split; [reflexivity|]. simpl.
  pose proof (dispatch_time_not_before E w). lia.
Qed.

(** X13: when the stamp is not ahead of the clock, a call through the
    limiter sets at most one timer, of 1 to 1000 ms, and the lookup is called
    (and the stamp taken) at the later of the clock reading and the stamp
    plus 1000 ms, late by no more than the timer's lag. *)
Theorem geocode_wait_bounded
  (E : Env) (w : World) (cityName : string) (countryCode : option string) :
  stamp_in_past w ->
  exists (r : GeocodeResponse) (w' : World) (delays : list Z) (called : Z),
    geocode cityName countryCode E w = (Normal r, w') /\
    timers (trace w') = timers (trace w) ++ delays /\
    (length delays <= 1)%nat /\
    Forall (fun d => 1 <= d <= 1000) delays /\
    lookups (trace w') =
      lookups (trace w) ++ [(called, cityName, default "gb" countryCode)] /\
    lastRequestTime (nominatimGeocoder w') = called /\
    let due := Z.max (clock w) (lastRequestTime (nominatimGeocoder w) + 1000) in
    due <= called <= due + Z.of_N (timer_lag E (length (trace w))).
Proof.
  unfold stamp_in_past. intros Hpast.
  destruct (geocode_effect E w cityName countryCode) as (r & spent & Hrun).
  rewrite Hrun. eexists r, _, (timers (wait_of w)), (dispatch_time E w).
  split; [reflexivity|]. simpl.
  rewrite !timers_app, !lookups_app, lookups_wait_of. simpl.
  rewrite app_nil_r. split; [reflexivity|].
  assert (Hrest :
    (length (timers (wait_of w)) <= 1)%nat /\
    Forall (fun d => 1 <= d <= 1000) (timers (wait_of w)) /\
    Z.max (clock w) (lastRequestTime (nominatimGeocoder w) + 1000)
    <= dispatch_time E w
    <= Z.max (clock w) (lastRequestTime (nominatimGeocoder w) + 1000)
       + Z.of_N (timer_lag E (length (trace w)))).
  { rewrite timers_wait_of. unfold dispatch_time, elapsed, minInterval.
    destruct (Z.ltb_spec (clock w - lastRequestTime (nominatimGeocoder w)) 1000).
    - rewrite effective_delay_in_range by (unfold TIMEOUT_MAX; lia).
      split; [simpl; lia|]. split; [repeat constructor; lia|]. lia.
    - split; [simpl; lia|]. split; [constructor|]. lia. }
  destruct Hrest as (Hlen & Hall & Hdue).
  split; [exact Hlen|]. split; [exact Hall|].
  split; [reflexivity|]. split; [reflexivity|]. exact Hdue.
Qed.

(** ** The batch driver over the module's own lookups *)

Lemma last_cons_default {A : Type} (later : list A) (t d : A) :
  List.last (t :: later) d = List.last later t.
Proof.
  revert t d. induction later as [|u rest IHl]; intros t d; [reflexivity|].
  change (List.last (u :: rest) d = List.last (u :: rest) t).
  rewrite !IHl. reflexivity.
Qed.

Lemma spaced_after_last (previous : Z) (times : list Z) :
  spaced_after previous times ->
  previous + minInterval * Z.of_nat (length times) <= List.last times previous.
Proof.
  revert previous. induction times as [|t later IH]; intros previous; simpl.
  - intros _. lia.
  - intros [Hgap Hlater]. specialize (IH t Hlater).
    pose proof (last_cons_default later t previous) as Hlast.
    simpl in Hlast. rewrite Hlast. unfold minInterval in *. lia.
Qed.

(** A run of limited lookups from a world whose stamp is not ahead of the
    clock. *)
Lemma limited_run (E : Env) (cityNames : list string) :
  forall w : World,
    stamp_in_past w ->
    exists found : list (Z * string * string),
      let w' := snd (outcomes (fun cityName => geocode cityName None)
                       cityNames E w) in
      lookups (trace w') = lookups (trace w) ++ found /\
      map lookup_name found = cityNames /\
      Forall (fun l => lookup_region l = "gb") found /\
      spaced_after (lastRequestTime (nominatimGeocoder w))
        (map lookup_time found) /\
      lastRequestTime (nominatimGeocoder w') =
        List.last (map lookup_time found) (lastRequestTime (nominatimGeocoder w)) /\
      stamp_in_past w'.
Proof.
  induction cityNames as [|cityName rest IH]; intros w Hpast; simpl.
  - exists []. simpl. rewrite app_nil_r. repeat split; [constructor|exact Hpast].
  - destruct (geocode_effect E w cityName None) as (r & spent & Hrun).
    rewrite Hrun.
    match type of Hrun with
    | _ = (_, ?w1) => set (w1' := w1) in *
    end.
    assert (Hpast1 : stamp_in_past w1') by (unfold stamp_in_past; simpl; lia).
    destruct (IH w1' Hpast1) as (found & Hlook & Hnames & Hregions & Hspaced
                                 & Hstamp & Hpast').
    destruct (outcomes _ rest E w1') as [later w2]. simpl in *.
    exists ((dispatch_time E w, cityName, "gb") :: found). simpl.
    split; [|split; [|split; [|split; [|split]]]].
    + rewrite Hlook. autorewrite with trace. simpl.
      rewrite <- app_assoc. reflexivity.
    + unfold lookup_name at 1. simpl. f_equal. exact Hnames.
    + constructor; [reflexivity|exact Hregions].
    + split; [apply dispatch_time_after_stamp; exact Hpast|exact Hspaced].
    + rewrite Hstamp. symmetry.
      apply (last_cons_default (map lookup_time found)).
    + exact Hpast'.
Qed.

(** A run of direct lookups. *)
Lemma direct_run (E : Env) (cityNames : list string) :
  forall w : World,
    exists found : list (Z * string * string),
      let w' := snd (outcomes (fun cityName => geocodeUKCity cityName None)
                       cityNames E w) in
      lookups (trace w') = lookups (trace w) ++ found /\
      map lookup_name found = cityNames /\
      Forall (fun l => lookup_region l = "gb") found /\
      timers (trace w') = timers (trace w) /\
      nominatimGeocoder w' = nominatimGeocoder w.
Proof.
  induction cityNames as [|cityName rest IH]; intros w; simpl.
  - exists []. simpl. rewrite app_nil_r. repeat split. constructor.
  - destruct (geocodeUKCity_effect E w cityName None) as (r & spent & Hrun).
    rewrite Hrun.
    match type of Hrun with
    | _ = (_, ?w1) => set (w1' := w1) in *
    end.
    destruct (IH w1') as (found & Hlook & Hnames & Hregions & Htimers & Hstamp).
    destruct (outcomes _ rest E w1') as [later w2]. simpl in *.
    exists ((clock w, cityName, "gb") :: found). simpl.
    split; [|split; [|split; [|split]]].
    + rewrite Hlook. autorewrite with trace. simpl.
      rewrite <- app_assoc. reflexivity.
    + unfold lookup_name at 1. simpl. f_equal. exact Hnames.
    + constructor; [reflexivity|exact Hregions].
    + rewrite Htimers. autorewrite with trace. simpl. apply app_nil_r.
    + exact Hstamp.
Qed.

(** A run of limited lookups from any world: the first call puts the stamp
    in the past. *)
Lemma limited_run_any (E : Env) (cityNames : list string) (w : World) :
  exists found : list (Z * string * string),
    let w' := snd (outcomes (fun cityName => geocode cityName None)
                     cityNames E w) in
    lookups (trace w') = lookups (trace w) ++ found /\
    map lookup_name found = cityNames /\
    Forall (fun l => lookup_region l = "gb") found /\
    spaced (map lookup_time found) /\
    clock w + minInterval * (Z.of_nat (length cityNames) - 1) <= clock w'.
Proof.
  destruct cityNames as [|cityName rest]; simpl.
  - exists []. simpl. rewrite app_nil_r. repeat split; [constructor|].
    unfold minInterval. lia.
  - destruct (geocode_effect E w cityName None) as (r & spent & Hrun).
    rewrite Hrun.
    match type of Hrun with
    | _ = (_, ?w1) => set (w1' := w1) in *
    end.
    assert (Hpast1 : stamp_in_past w1') by (unfold stamp_in_past; simpl; lia).
    destruct (limited_run E rest w1' Hpast1)
      as (found & Hlook & Hnames & Hregions & Hspaced & Hstamp & Hpast').
    destruct (outcomes _ rest E w1') as [later w2]. simpl in *.
    exists ((dispatch_time E w, cityName, "gb") :: found). simpl.
    split; [|split; [|split; [|split]]].
    + rewrite Hlook. autorewrite with trace. simpl.
      rewrite <- app_assoc. reflexivity.
    + unfold lookup_name at 1. simpl. f_equal. exact Hnames.
    + constructor; [reflexivity|exact Hregions].
    + exact Hspaced.
    + pose proof (spaced_after_last _ _ Hspaced) as Hlast.
      rewrite <- Hstamp in Hlast. rewrite length_map in Hlast.
      apply (f_equal (@length string)) in Hnames. rewrite length_map in Hnames.
      rewrite Hnames in Hlast.
      pose proof (dispatch_time_not_before E w).
      unfold stamp_in_past in Hpast'. unfold minInterval in *. lia.
Qed.

(** X14: whatever the two lookups do, throw included, the loop returns a
    record and never throws, and every name other than [__proto__] is a key
    of the record, beside the keys it started with. *)
Theorem batch_loop_isolates
  (limited direct : string -> M GeocodeResponse) (useRateLimiting : bool)
  (cityNames : list string) (results : ResultRecord) (E : Env) (w : World) :
  exists (r : ResultRecord) (w' : World),
    batch_loop limited direct useRateLimiting cityNames results E w
    = (Normal r, w') /\
    keys r =
      keys results ∪
      list_to_set (filter (fun key => key <> "__proto__") cityNames).
Proof.
  rewrite batch_loop_outcomes. eexists _, _. split; [reflexivity|].
  rewrite keys_assign_all, outcomes_names. reflexivity.
Qed.

(** X15: for a name other than [__proto__], the record holds what the last
    lookup of that name came to: its response, or, if it threw, the error
    ['Failed to geocode <name>'] with the message thrown (['Unknown error']
    for a value that is not an [Error]); earlier lookups of the same name are
    overwritten. *)
Theorem batch_loop_last_lookup_wins
  (limited direct : string -> M GeocodeResponse) (useRateLimiting : bool)
  (before after : list string) (cityName : string)
  (results : ResultRecord) (E : Env) (w : World) :
  cityName <> "__proto__" ->
  ~ In cityName after ->
  exists (r : ResultRecord) (w' : World),
    batch_loop limited direct useRateLimiting (before ++ cityName :: after)
      results E w = (Normal r, w') /\
    entries r !! cityName =
    Some match fst ((if useRateLimiting then limited else direct) cityName E
                      (snd (outcomes (if useRateLimiting then limited else direct)
                              before E w))) with
         | Normal response => response
         | Throw e =>
             Failure {| error := "Failed to geocode " +:+ cityName;
                        details := Some match e with
                                        | TypeError why => engine_message E why
                                        | HostError message => message
                                        | HostValue => "Unknown error"
                                        end |}
         end.
Proof.
  intros Hne Hlast.
  destruct (batch_loop_entry limited direct useRateLimiting before after
              cityName results E w Hne Hlast) as (r & w' & Hrun & Hentry).
  exists r, w'. split; [exact Hrun|]. rewrite Hentry. unfold chosen.
  destruct (fst _); reflexivity.
Qed.

(** X16: the driver looks every name up exactly once, in input order and
    for the region [gb], a repeated name again each time it occurs. *)
Theorem batchGeocodeUKCities_lookups
  (E : Env) (w : World) (cityNames : list string) (useRateLimiting : option bool) :
  exists (r : ResultRecord) (w' : World) (found : list (Z * string * string)),
    batchGeocodeUKCities cityNames useRateLimiting E w = (Normal r, w') /\
    lookups (trace w') = lookups (trace w) ++ found /\
    map lookup_name found = cityNames /\
    Forall (fun l => lookup_region l = "gb") found.
Proof.
  unfold batchGeocodeUKCities. rewrite batch_loop_outcomes. unfold chosen.
  destruct (default true useRateLimiting).
  - destruct (limited_run_any E cityNames w)
      as (found & Hlook & Hnames & Hregions & _).
    eexists _, _, found. split; [reflexivity|]. simpl. auto.
  - destruct (direct_run E cityNames w)
      as (found & Hlook & Hnames & Hregions & _).
    eexists _, _, found. split; [reflexivity|]. simpl. auto.
Qed.

(** X17: with rate limiting on (the default), each lookup of a batch is
    called at least 1000 ms after the one before it. *)
Theorem batchGeocodeUKCities_spaced
  (E : Env) (w : World) (cityNames : list string) (useRateLimiting : option bool) :
  default true useRateLimiting = true ->
  exists (r : ResultRecord) (w' : World) (found : list (Z * string * string)),
    batchGeocodeUKCities cityNames useRateLimiting E w = (Normal r, w') /\
    lookups (trace w') = lookups (trace w) ++ found /\
    map lookup_name found = cityNames /\
    spaced (map lookup_time found).
Proof.
  intros Hon. unfold batchGeocodeUKCities. rewrite batch_loop_outcomes, Hon.
  unfold chosen.
  destruct (limited_run_any E cityNames w)
    as (found & Hlook & Hnames & _ & Hspaced & _).
  eexists _, _, found. split; [reflexivity|]. simpl. auto.
Qed.

(** X18: with rate limiting on, a batch of [n] names takes at least
    [1000 * (n - 1)] ms by the clock. *)
Theorem batchGeocodeUKCities_duration
  (E : Env) (w : World) (cityNames : list string) (useRateLimiting : option bool) :
  default true useRateLimiting = true ->
  exists (r : ResultRecord) (w' : World),
    batchGeocodeUKCities cityNames useRateLimiting E w = (Normal r, w') /\
    clock w + 1000 * (Z.of_nat (length cityNames) - 1) <= clock w'.
Proof.
  intros Hon. unfold batchGeocodeUKCities. rewrite batch_loop_outcomes, Hon.
  unfold chosen.
  destruct (limited_run_any E cityNames w) as (found & _ & _ & _ & _ & Hclock).
  eexists _, _. split; [reflexivity|]. exact Hclock.
Qed.

(** X19: with rate limiting off, the driver sets no timer and leaves the
    limiter's stamp as it was: lookups made this way are not counted by the
    limiter. *)
Theorem batchGeocodeUKCities_unlimited
  (E : Env) (w : World) (cityNames : list string) :
  exists (r : ResultRecord) (w' : World),
    batchGeocodeUKCities cityNames (Some false) E w = (Normal r, w') /\
    timers (trace w') = timers (trace w) /\
    nominatimGeocoder w' = nominatimGeocoder w.
Proof.
  unfold batchGeocodeUKCities. rewrite batch_loop_outcomes. unfold chosen. simpl.
  destruct (direct_run E cityNames w) as (found & _ & _ & _ & Htimers & Hstamp).
  eexists _, _. split; [reflexivity|]. simpl. auto.
Qed.

(** X20: for a successful answer that carries an array, a list of results
    comes back exactly when the array is not empty and every candidate is
    usable; one candidate that is not turns the whole answer into an
    error. *)
Theorem geocodeUKCity_results_iff
  (E : Env) (w : World) (cityName : string) (countryCode : option string)
  (delay : N) (response : Response) (items : list value) :
  upstream_answer E w cityName countryCode = (delay, Normal response) ->
  ok response = true ->
  body response = Normal (VArray items) ->
  (exists results,
     fst (geocodeUKCity cityName countryCode E w) = Normal (Results results))
  <-> (items <> [] /\ Forall (fun item => usable item = true) items).
Proof.
  intros Hanswer Hok Hbody. split.
  - intros [results Hres]. split.
    + intros ->.
      rewrite (geocodeUKCity_success E w cityName countryCode delay response
                 Hanswer Hok), Hbody in Hres.
      discriminate.
    + exact (lookup_results_need_usable E w cityName countryCode delay response
               Hanswer Hok items Hbody results Hres).
  - intros [Hne Hall].
    rewrite (geocodeUKCity_candidates E w cityName countryCode delay response
               Hanswer Hok items Hbody Hne).
    destruct (call_map_usable (fun _ _ => True) items) as (results & Hmap & _);
      [auto|exact Hall|].
    exists results. simpl in Hmap. rewrite Hmap. reflexivity.
Qed.

(** ** The further properties at sample inputs *)

Lemma geocodeUKCity_network_error_sample :
  fst (geocodeUKCity "Leeds" None (offline (HostError "fetch failed"))
         (boot 1700000000000)) =
  Normal (Failure {| error := "Failed to geocode location";
                     details := Some "fetch failed" |}).
Proof.
  exact (geocodeUKCity_network_error (offline (HostError "fetch failed"))
           (boot 1700000000000) "Leeds" None 30%N (HostError "fetch failed")
           eq_refl).
Defined.

Lemma geocodeUKCity_undecodable_body_sample :
  fst (geocodeUKCity "Leeds" None
         (stub 200 "OK" (Throw (HostError "Unexpected token < in JSON")))
         (boot 1700000000000)) =
  Normal (Failure {| error := "Failed to geocode location";
                     details := Some "Unexpected token < in JSON" |}).
Proof.
  exact (geocodeUKCity_undecodable_body
           (stub 200 "OK" (Throw (HostError "Unexpected token < in JSON")))
           (boot 1700000000000) "Leeds" None 120%N
           {| status := 200; statusText := "OK";
              body := Throw (HostError "Unexpected token < in JSON");
              body_delay := 5 |}
           (HostError "Unexpected token < in JSON") eq_refl eq_refl eq_refl).
Defined.

Lemma geocodeUKCity_falsy_body_sample :
  fst (geocodeUKCity "Leeds" None (stub 200 "OK" (Normal VNull))
         (boot 1700000000000)) =
  Normal (Failure
            {| error := "No results found for " +:+ quote +:+ "Leeds"
                        +:+ quote +:+ " in the UK";
               details := Some "Try checking the spelling or using a more specific location name" |}).
Proof.
  exact (geocodeUKCity_falsy_body (stub 200 "OK" (Normal VNull))
           (boot 1700000000000) "Leeds" None 120%N
           {| status := 200; statusText := "OK";
              body := Normal VNull; body_delay := 5 |}
           VNull eq_refl eq_refl eq_refl eq_refl).
Defined.

Lemma geocodeUKCity_body_not_array_sample :
  fst (geocodeUKCity "Leeds" None
         (stub 200 "OK" (Normal (VObject [("error", VString "Unable to geocode")])))
         (boot 1700000000000)) =
  Normal (Failure {| error := "Failed to geocode location";
                     details := Some "data.map is not a function" |}).
Proof.
  refine (geocodeUKCity_body_not_array
            (stub 200 "OK" (Normal (VObject [("error", VString "Unable to geocode")])))
            (boot 1700000000000) "Leeds" None 120%N
            {| status := 200; statusText := "OK";
               body := Normal (VObject [("error", VString "Unable to geocode")]);
               body_delay := 5 |}
            (VObject [("error", VString "Unable to geocode")])
            eq_refl eq_refl eq_refl eq_refl _).
  discriminate.
Defined.

Lemma geocodeUKCity_results_from_array_sample :
  exists (response : Response) (items : list value),
    snd (upstream_answer (stub 200 "OK" (Normal (VArray [manchester])))
           (boot 1700000000000) "Manchester" None) = Normal response /\
    ok response = true /\
    body response = Normal (VArray items) /\
    length [{| name := VString "Manchester";
               coordinates := {| latitude := Finite false 534794892 (-7);
                                 longitude := Finite true 22451148 (-7) |};
               displayName := VString "Manchester, Greater Manchester, England";
               country := VString "United Kingdom";
               county := VString "Greater Manchester";
               state := VString "England" |}] = length items /\
    [{| name := VString "Manchester";
        coordinates := {| latitude := Finite false 534794892 (-7);
                          longitude := Finite true 22451148 (-7) |};
        displayName := VString "Manchester, Greater Manchester, England";
        country := VString "United Kingdom";
        county := VString "Greater Manchester";
        state := VString "England" |}] <> [].
Proof.
  exact (geocodeUKCity_results_from_array
           (stub 200 "OK" (Normal (VArray [manchester])))
           (boot 1700000000000) "Manchester" None _ eq_refl).
Defined.

Lemma geocodeUKCity_result_fields_sample :
  Forall (fun r => ToBoolean (country r) = true /\
                   (ToBoolean (name r) = true \/ is_string (name r) = true))
    [{| name := VString "Ashby";
        coordinates := {| latitude := NaN; longitude := NaN |};
        displayName := VString "Ashby, Leicestershire";
        country := VString "United Kingdom";
        county := VUndefined;
        state := VUndefined |}].
Proof.
  exact (geocodeUKCity_result_fields
           (stub 200 "OK" (Normal (VArray [unnamed_place])))
           (boot 1700000000000) "Ashby" None _ eq_refl).
Defined.

Lemma geocodeUKCity_blank_name_sample :
  exists (r : GeocodeResponse) (w' : World),
    geocodeUKCity "   " None (stub 200 "OK" (Normal (VArray [])))
      (boot 1700000000000) = (Normal r, w') /\
    trace w' =
      [LookupCalled 1700000000000 "   " "gb";
       RequestSent 1700000000000
         (url_before_name +:+ "&countrycodes=" +:+ "gb" +:+ url_after_region)].
Proof.
  exact (geocodeUKCity_blank_name (stub 200 "OK" (Normal (VArray [])))
           (boot 1700000000000) "   " None eq_refl).
Defined.

Lemma geocode_wait_bounded_sample :
  exists (r : GeocodeResponse) (w' : World) (delays : list Z) (called : Z),
    geocode "Leeds" None (stub 200 "OK" (Normal (VArray [manchester])))
      (boot 400) = (Normal r, w') /\
    timers (trace w') = delays /\
    (length delays <= 1)%nat /\
    Forall (fun d => 1 <= d <= 1000) delays /\
    lookups (trace w') = [(called, "Leeds", "gb")] /\
    lastRequestTime (nominatimGeocoder w') = called /\
    1000 <= called <= 1000.
Proof.
  refine (geocode_wait_bounded (stub 200 "OK" (Normal (VArray [manchester])))
            (boot 400) "Leeds" None _).
  unfold stamp_in_past. simpl. lia.
Defined.

Lemma batch_loop_last_lookup_wins_sample :
  exists (r : ResultRecord) (w' : World),
    batch_loop (rejecting (HostError "socket hang up")) (answering (Results []))
      true (["York"] ++ "York" :: ["Leeds"]) empty_record
      (stub 200 "OK" (Normal (VArray []))) (boot 1700000000000) = (Normal r, w') /\
    entries r !! "York" =
    Some (Failure {| error := "Failed to geocode York";
                     details := Some "socket hang up" |}).
Proof.
  refine (batch_loop_last_lookup_wins
            (rejecting (HostError "socket hang up")) (answering (Results []))
            true ["York"] ["Leeds"] "York" empty_record
            (stub 200 "OK" (Normal (VArray []))) (boot 1700000000000) _ _).
  - discriminate.
  - intros [H|[]]. discriminate.
Defined.

Lemma batchGeocodeUKCities_spaced_sample :
  exists (r : ResultRecord) (w' : World) (found : list (Z * string * string)),
    batchGeocodeUKCities ["Leeds"; "York"; "Leeds"] None
      (stub 200 "OK" (Normal (VArray [manchester]))) (boot 1700000000000)
    = (Normal r, w') /\
    lookups (trace w') = found /\
    map lookup_name found = ["Leeds"; "York"; "Leeds"] /\
    spaced (map lookup_time found).
Proof.
  exact (batchGeocodeUKCities_spaced
           (stub 200 "OK" (Normal (VArray [manchester]))) (boot 1700000000000)
           ["Leeds"; "York"; "Leeds"] None eq_refl).
Defined.

Lemma batchGeocodeUKCities_duration_sample :
  exists (r : ResultRecord) (w' : World),
    batchGeocodeUKCities ["Leeds"; "York"; "Leeds"] None
      (stub 200 "OK" (Normal (VArray [manchester]))) (boot 1700000000000)
    = (Normal r, w') /\
    1700000000000 + 1000 * (3 - 1) <= clock w'.
Proof.
  exact (batchGeocodeUKCities_duration
           (stub 200 "OK" (Normal (VArray [manchester]))) (boot 1700000000000)
           ["Leeds"; "York"; "Leeds"] None eq_refl).
Defined.

Lemma geocodeUKCity_results_iff_sample :
  (exists results,
     fst (geocodeUKCity "Manchester" None
            (stub 200 "OK" (Normal (VArray [manchester; VNull])))
            (boot 1700000000000)) = Normal (Results results))
  <-> ([manchester; VNull] <> [] /\
       Forall (fun item => usable item = true) [manchester; VNull]).
Proof.
  exact (geocodeUKCity_results_iff
           (stub 200 "OK" (Normal (VArray [manchester; VNull])))
           (boot 1700000000000) "Manchester" None 120%N
           {| status := 200; statusText := "OK";
              body := Normal (VArray [manchester; VNull]); body_delay := 5 |}
           [manchester; VNull] eq_refl eq_refl eq_refl).
Defined.

(** What the driver's record and trace look like for a short batch. *)
Example batchGeocodeUKCities_run :
  let E := stub 503 "Service Unavailable" (Normal VNull) in
  let w' := snd (batchGeocodeUKCities ["Leeds"; "York"] None E (boot 1700000000000)) in
  lookups (trace w') =
    [(1700000000000, "Leeds", "gb"); (1700000001000, "York", "gb")] /\
  timers (trace w') = [880].
Proof. split; reflexivity. Qed.

(** ** Distinct names, distinct requests *)

Lemma code_hex_digit (k : N) :
  (k < 16)%N -> code (hex_digit k) = (if N.ltb k 10 then 48 + k else 55 + k)%N.
Proof.
  intros Hk. unfold code, hex_digit. apply N_ascii_embedding.
  destruct (N.ltb_spec k 10); lia.
Qed.

Lemma hex_digit_inj (a b : N) :
  (a < 16)%N -> (b < 16)%N -> hex_digit a = hex_digit b -> a = b.
Proof.
  intros Ha Hb Heq. apply (f_equal code) in Heq.
  rewrite !code_hex_digit in Heq by assumption.
  destruct (N.ltb_spec a 10), (N.ltb_spec b 10); lia.
Qed.

Lemma percent_byte_inj (a b : N) (r s : string) :
  (a < 256)%N -> (b < 256)%N ->
  percent_byte a r = percent_byte b s -> a = b /\ r = s.
Proof.
  intros Ha Hb Heq. unfold percent_byte in Heq.
  injection Heq as Hhigh Hlow Hrest.
  apply hex_digit_inj in Hhigh;
    [|apply N.Div0.div_lt_upper_bound; lia|apply N.Div0.div_lt_upper_bound; lia].
  apply hex_digit_inj in Hlow; [|apply N.mod_lt; lia|apply N.mod_lt; lia].
  split; [|exact Hrest].
  rewrite (N.div_mod a 16), (N.div_mod b 16) by lia. congruence.
Qed.

Lemma code_inj (c d : ascii) : code c = code d -> c = d.
Proof.
  unfold code. intros Heq.
  rewrite <- (ascii_N_embedding c), <- (ascii_N_embedding d), Heq. reflexivity.
Qed.

Lemma encodeURIComponent_inj (a : string) :
  forall b, encodeURIComponent a = encodeURIComponent b -> a = b.
Proof.
  induction a as [|c a' IH]; intros [|d b']; simpl.
  - reflexivity.
  - destruct (is_uri_unreserved d); [discriminate|].
    destruct (N.ltb (code d) 128); discriminate.
  - destruct (is_uri_unreserved c); [discriminate|].
    destruct (N.ltb (code c) 128); discriminate.
  - pose proof (N_ascii_bounded c) as Hc. fold (code c) in Hc.
    pose proof (N_ascii_bounded d) as Hd. fold (code d) in Hd.
    assert (Hc64 : (code c / 64 < 4)%N) by (apply N.Div0.div_lt_upper_bound; lia).
    assert (Hd64 : (code d / 64 < 4)%N) by (apply N.Div0.div_lt_upper_bound; lia).
    pose proof (N.mod_lt (code c) 64 ltac:(lia)) as Hcm.
    pose proof (N.mod_lt (code d) 64 ltac:(lia)) as Hdm.
    destruct (is_uri_unreserved c) eqn:Huc, (is_uri_unreserved d) eqn:Hud.
    + intros [= -> Hrest]. f_equal. apply IH, Hrest.
    + destruct (N.ltb (code d) 128); unfold percent_byte;
        intros [= -> _]; discriminate.
    + destruct (N.ltb (code c) 128); unfold percent_byte;
        intros [= <- _]; discriminate.
    + destruct (N.ltb_spec (code c) 128), (N.ltb_spec (code d) 128); intros Heq.
      * apply percent_byte_inj in Heq as [Hcode Hrest]; [|lia|lia].
        f_equal; [apply code_inj, Hcode|apply IH, Hrest].
      * exfalso. unfold percent_byte in Heq. injection Heq as Hhigh _.
        apply hex_digit_inj in Hhigh;
          [|apply N.Div0.div_lt_upper_bound; lia
           |apply N.Div0.div_lt_upper_bound; lia].
        assert (Hlow : (code c / 16 < 8)%N)
          by (apply N.Div0.div_lt_upper_bound; lia).
        assert (Hup : (12 <= (192 + code d / 64) / 16)%N)
          by (apply N.div_le_lower_bound; [lia|apply (N.le_add_r 192)]).
        rewrite Hhigh in Hlow. pose proof (N.le_lt_trans _ _ _ Hup Hlow). lia.
      * exfalso. unfold percent_byte in Heq. injection Heq as Hhigh _.
        apply hex_digit_inj in Hhigh;
          [|apply N.Div0.div_lt_upper_bound; lia
           |apply N.Div0.div_lt_upper_bound; lia].
        assert (Hlow : (code d / 16 < 8)%N)
          by (apply N.Div0.div_lt_upper_bound; lia).
        assert (Hup : (12 <= (192 + code c / 64) / 16)%N)
          by (apply N.div_le_lower_bound; [lia|apply (N.le_add_r 192)]).
        rewrite <- Hhigh in Hlow. pose proof (N.le_lt_trans _ _ _ Hup Hlow). lia.
      * apply percent_byte_inj in Heq as [Hlead Heq]; [|lia|lia].
        apply percent_byte_inj in Heq as [Htrail Hrest]; [|lia|lia].
        f_equal; [|apply IH, Hrest]. apply code_inj.
        apply N.add_cancel_l in Hlead, Htrail.
        rewrite (N.div_mod (code c) 64), (N.div_mod (code d) 64) by lia.
        rewrite Hlead, Htrail. reflexivity.
Qed.

Lemma append_cancel_l (p a b : string) : p +:+ a = p +:+ b -> a = b.
Proof.
  induction p as [|c rest IH]; [auto|].
  rewrite !append_cons. intros [= H]. apply IH, H.
Qed.

Lemma append_cancel_r (a b t : string) : a +:+ t = b +:+ t -> a = b.
Proof.
  intros Heq. apply (f_equal String.rev) in Heq. rewrite !rev_append in Heq.
  apply append_cancel_l in Heq. apply (f_equal String.rev) in Heq.
  rewrite !rev_involutive in Heq. exact Heq.
Qed.

(** X21: two names send the same request for a region only if they are the
    same once trimmed: the encoding of the name loses nothing. *)
Theorem request_url_inj (name1 name2 countryCode : string) :
  request_url name1 countryCode = request_url name2 countryCode ->
  trim name1 = trim name2.
Proof.
  rewrite !request_url_shape. intros Heq.
  apply append_cancel_l in Heq. apply append_cancel_r in Heq.
  apply encodeURIComponent_inj, Heq.
Qed.

Lemma request_url_inj_sample : trim " St Ives" = trim "St Ives  ".
Proof. exact (request_url_inj " St Ives" "St Ives  " "gb" eq_refl). Defined.

(** ** The limiter only delays *)

(** X22: when what the network answers to a request does not depend on
    when the request is made, a call through the limiter returns exactly
    what the direct lookup of the same name returns. *)
Theorem geocode_same_outcome
  (E : Env) (w : World) (cityName : string) (countryCode : option string) :
  (forall i j url headers, network E i url headers = network E j url headers) ->
  fst (geocode cityName countryCode E w) =
  fst (geocodeUKCity cityName countryCode E w).
Proof.
  intros Hsteady. rewrite (geocodeUKCity_classified E w cityName countryCode).
  unfold geocode, bind, Date_now, get_lastRequestTime, set_lastRequestTime.
  destruct (_ <? minInterval); unfold sleep, ret; simpl;
    rewrite geocodeUKCity_classified; unfold upstream_answer; simpl;
    f_equal; f_equal; f_equal; apply Hsteady.
Qed.

Lemma geocode_same_outcome_sample :
  fst (geocode "Leeds" None (stub 200 "OK" (Normal (VArray [manchester])))
         (boot 400)) =
  fst (geocodeUKCity "Leeds" None (stub 200 "OK" (Normal (VArray [manchester])))
         (boot 400)).
Proof.
  exact (geocode_same_outcome (stub 200 "OK" (Normal (VArray [manchester])))
           (boot 400) "Leeds" None (fun _ _ _ _ => eq_refl)).
Defined.

(** X23: the spacing carries over from earlier calls: when the stamp is not
    ahead of the clock, the first lookup of a rate-limited batch is called at
    least 1000 ms after the stamp, and each later one at least 1000 ms after
    the one before. *)
Theorem batchGeocodeUKCities_spaced_after_stamp
  (E : Env) (w : World) (cityNames : list string) (useRateLimiting : option bool) :
  default true useRateLimiting = true ->
  stamp_in_past w ->
  exists (r : ResultRecord) (w' : World) (found : list (Z * string * string)),
    batchGeocodeUKCities cityNames useRateLimiting E w = (Normal r, w') /\
    lookups (trace w') = lookups (trace w) ++ found /\
    spaced_after (lastRequestTime (nominatimGeocoder w)) (map lookup_time found) /\
    lastRequestTime (nominatimGeocoder w') =
      List.last (map lookup_time found) (lastRequestTime (nominatimGeocoder w)).
Proof.
  intros Hon Hpast. unfold batchGeocodeUKCities.
  rewrite batch_loop_outcomes, Hon. unfold chosen.
  destruct (limited_run E cityNames w Hpast)
    as (found & Hlook & _ & _ & Hspaced & Hstamp & _).
  eexists _, _, found. split; [reflexivity|]. simpl. auto.
Qed.

Lemma batchGeocodeUKCities_spaced_after_stamp_sample :
  exists (r : ResultRecord) (w' : World) (found : list (Z * string * string)),
    batchGeocodeUKCities ["Leeds"; "York"] None
      (stub 200 "OK" (Normal (VArray [manchester])))
      {| clock := 1700000000300;
         nominatimGeocoder := {| lastRequestTime := 1700000000000 |};
         trace := [] |} = (Normal r, w') /\
    lookups (trace w') = found /\
    spaced_after 1700000000000 (map lookup_time found) /\
    lastRequestTime (nominatimGeocoder w') =
      List.last (map lookup_time found) 1700000000000.
Proof.
  refine (batchGeocodeUKCities_spaced_after_stamp
            (stub 200 "OK" (Normal (VArray [manchester])))
            {| clock := 1700000000300;
               nominatimGeocoder := {| lastRequestTime := 1700000000000 |};
               trace := [] |}
            ["Leeds"; "York"] None eq_refl _).
  unfold stamp_in_past. simpl. lia.
Defined.
